(** * skNoiseDeformer: a shallow embedding of the Maya noise deformer

    The development follows the two C++ plugins of the repository:
    - [SkNoiseDeformer::deform] (skNoiseDeformer.cpp), the single-threaded
      deformer, and
    - [SkNoiseDeformerMT::deform], [createTasksAndExecute] and [threadTask]
      (skNoiseDeformerMT.cpp), the multi-threaded one.

    C++ [float] and [double] arithmetic, the Maya classes [MMatrix] and
    [MPoint] and libnoise's [noise3] are not part of the plugin sources; they
    are the operations of the class [Platform] below and every general
    theorem holds for all their interpretations.  [Reference] gives one
    interpretation (exact rational arithmetic) on which the definitions can be
    evaluated. *)

From Stdlib Require Import ZArith QArith Qcanon Lia List.
From stdpp Require Import base tactics option list numbers strings.

Local Open Scope Z_scope.

(** ** The platform the plugin is compiled against *)

(** [MPoint]: Maya's homogeneous point, four public [double] members. *)
Record MPoint_ (D : Type) : Type := mkPoint { pt_x : D; pt_y : D; pt_z : D; pt_w : D }.
Arguments mkPoint {D} _ _ _ _.
Arguments pt_x {D} _.
Arguments pt_y {D} _.
Arguments pt_z {D} _.
Arguments pt_w {D} _.

Class Platform : Type := {
  (* C++ scalar types and their arithmetic *)
  float : Type;
  double : Type;
  f_lit : Q -> float;                    (* a literal or an int, converted to float *)
  d_lit : Q -> double;
  f_add : float -> float -> float;
  f_mul : float -> float -> float;
  f_leb : float -> float -> bool;        (* a <= b *)
  d_add : double -> double -> double;
  d_sub : double -> double -> double;
  d_mul : double -> double -> double;
  to_double : float -> double;           (* implicit promotion *)
  to_float : double -> float;            (* implicit narrowing on assignment *)
  (* Maya *)
  MMatrix : Type;
  mat_identity : MMatrix;
  mat_mul : MMatrix -> MMatrix -> MMatrix;             (* MMatrix::operator*  *)
  mat_inverse : MMatrix -> MMatrix;                    (* MMatrix::inverse()  *)
  pt_mul : MPoint_ double -> MMatrix -> MPoint_ double; (* MPoint::operator*=  *)
  (* libnoise *)
  noise3 : float -> float -> float -> float
}.

Abbreviation MPoint := (MPoint_ double).

(** [float *] handles returned by [asFloat3()]: three floats. *)
Record Float3_ (F : Type) : Type := mkFloat3 { idx0 : F; idx1 : F; idx2 : F }.
Arguments mkFloat3 {F} _ _ _.
Arguments idx0 {F} _.
Arguments idx1 {F} _.
Arguments idx2 {F} _.
Abbreviation Float3 := (Float3_ float).

Declare Scope flt_scope.
Delimit Scope flt_scope with flt.
Notation "a >=? b" := (f_leb b a) (at level 70, no associativity) : flt_scope.
Notation "a <? b" := (negb (f_leb b a)) (at level 70, no associativity) : flt_scope.

Section Noise.
Context `{Platform}.

(** [const float EPSILON = 0.0000001;] *)
Definition EPSILON : float := f_lit (1 # 10000000).

(** Modelled from the spec: libnoise/_simplex.c, which defines [fbm_noise3],
    is not among the sources.  The spec, section 4.2: "accumulate
    sum += noise3(x*freq, y*freq, z*freq) * amp for octaves iterations, where
    freq starts at 1 and is multiplied by lacunarity each iteration, and amp
    starts at 1 and is multiplied by persistence each iteration.  Returns the
    raw (unnormalized) sum". *)
Fixpoint fbm_loop (iters : nat) (x y z persistence lacunarity freq amp sum : float)
  : float :=
  match iters with
  | O => sum
  | S iters' =>
      let sum := f_add sum (f_mul (noise3 (f_mul x freq) (f_mul y freq) (f_mul z freq)) amp) in
      let freq := f_mul freq lacunarity in
      let amp := f_mul amp persistence in
      fbm_loop iters' x y z persistence lacunarity freq amp sum
  end.

(** Modelled from the spec: [fbm_noise3] of libnoise/_simplex.c, with the
    argument order of its calls in the plugins.  No turn of the loop is made
    for [octaves < 1]. *)
Definition fbm_noise3 (x y z : float) (octaves : Z) (persistence lacunarity : float)
  : float :=
  fbm_loop (Z.to_nat octaves) x y z persistence lacunarity (f_lit 1) (f_lit 1) (f_lit 0).
End Noise.

(** ** Data blocks, attribute reads and status codes *)

Inductive MStatus : Type := kSuccess | kFailure.

(** The attributes a deformer node requests from its data block with
    [inputValue].  The inherited weight list is not one of them: [deform]
    never requests it with [inputValue], it reads single weights with
    [weightValue], the last field of [MDataBlock]. *)
Inductive Attr : Type :=
| Envelope | NumTasks | Amp | Freq | Offset | Octaves | Lacunarity | Persistence
| LocatorWorldSpace.

(** [MDataBlock]: what [inputValue] yields for each attribute ([None] when it
    sets a failure status) and the painted weights read by [weightValue]. *)
Record MDataBlock `{Platform} : Type := mkDataBlock {
  db_envelope : option float;
  db_numTasks : option Z;
  db_amp : option Float3;
  db_freq : option Float3;
  db_offset : option Float3;
  db_octaves : option Z;
  db_lacunarity : option float;
  db_persistence : option float;
  db_locatorWorldSpace : option MMatrix;
  weightValue : nat -> nat -> float       (* multiIndex, index *)
}.

(** [CHECK_ERROR] returns [MS::kFailure] from the enclosing function as soon as
    a read fails: an error monad.  It also records which attributes were
    requested with [inputValue], in order; calls of [weightValue] are not
    recorded. *)
Definition Read (A : Type) : Type := list Attr -> list Attr * option A.

#[export] Instance Read_ret : MRet Read := fun A a log => (log, Some a).

#[export] Instance Read_bind : MBind Read := fun A B k m log =>
  match m log with
  | (log', Some a) => k a log'
  | (log', None) => (log', None)
  end.

(** [dataBlock.inputValue(attr, &stat); CHECK_ERROR(stat, ...)] *)
Definition inputValue {A} (attr : Attr) (field : option A) : Read A :=
  fun log => (log ++ [attr], field).

(** What one invocation of [deform] leaves behind. *)
Record Outcome `{Platform} : Type := mkOutcome {
  status : MStatus;
  positions : list MPoint;
  reads : list Attr
}.

Definition run_deform `{Platform} (geom : list MPoint) (body : Read (list MPoint))
  : Outcome :=
  match body [] with
  | (log, Some geom') => mkOutcome _ kSuccess geom' log
  | (log, None) => mkOutcome _ kFailure geom log
  end.

(** ** skNoiseDeformer.cpp: the single-threaded deformer *)

Module SkNoiseDeformer.
Section Deform.
Context `{Platform}.
Local Open Scope flt_scope.

(** Lines 193-212, the part of the loop body below the weight test: the point
    is taken to locator space, displaced along each axis and taken back. *)
Definition displace (env weight : float) (amps freqs offsets : Float3) (octaves : Z)
    (lacunarity persistence : float)
    (localToLocatorSpaceMat locatorToLocalSpaceMat : MMatrix) (pos : MPoint) : MPoint :=
  (* pos *= localToLocatorSpaceMat; *)
  let pos := pt_mul pos localToLocatorSpaceMat in
  (* noiseInput[i] = freqs[i] * pos.{x,y,z} - offsets[i]; *)
  let noiseInput0 :=
    to_float (d_sub (d_mul (to_double (idx0 freqs)) (pt_x pos)) (to_double (idx0 offsets))) in
  let noiseInput1 :=
    to_float (d_sub (d_mul (to_double (idx1 freqs)) (pt_y pos)) (to_double (idx1 offsets))) in
  let noiseInput2 :=
    to_float (d_sub (d_mul (to_double (idx2 freqs)) (pt_z pos)) (to_double (idx2 offsets))) in
  let envTimesWeight := f_mul env weight in
  (* pos.x += amps[0] * fbm_noise3(...) * envTimesWeight; and so on *)
  let x := d_add (pt_x pos) (to_double (f_mul (f_mul (idx0 amps)
             (fbm_noise3 noiseInput0 noiseInput1 noiseInput2
                octaves persistence lacunarity)) envTimesWeight)) in
  let y := d_add (pt_y pos) (to_double (f_mul (f_mul (idx1 amps)
             (fbm_noise3 (f_add noiseInput0 (f_lit 123)) (f_add noiseInput1 (f_lit 456))
                (f_add noiseInput2 (f_lit 789)) octaves persistence lacunarity))
             envTimesWeight)) in
  let z := d_add (pt_z pos) (to_double (f_mul (f_mul (idx2 amps)
             (fbm_noise3 (f_add noiseInput0 (f_lit 234)) (f_add noiseInput1 (f_lit 567))
                (f_add noiseInput2 (f_lit 890)) octaves persistence lacunarity))
             envTimesWeight)) in
  let pos := mkPoint x y z (pt_w pos) in
  (* pos *= locatorToLocalSpaceMat; *)
  pt_mul pos locatorToLocalSpaceMat.

(** One turn of [for (geomIter.reset(); !geomIter.isDone(); geomIter.next())]
    at the point with index [index]; [geom] is the geometry being rewritten in
    place by [setPosition].  The point at place [j] of [geom] has
    [geomIter.index() = j]. *)
Definition visit (dataBlock : MDataBlock) (multiIndex : nat) (env : float)
    (amps freqs offsets : Float3) (octaves : Z) (lacunarity persistence : float)
    (localToLocatorSpaceMat locatorToLocalSpaceMat : MMatrix)
    (geom : list MPoint) (index : nat) : list MPoint :=
  let weight := weightValue dataBlock multiIndex index in
  if EPSILON >=? weight then geom   (* continue *)
  else alter (displace env weight amps freqs offsets octaves lacunarity persistence
                localToLocatorSpaceMat locatorToLocalSpaceMat) index geom.

(** [SkNoiseDeformer::deform] *)
Definition deform (dataBlock : MDataBlock) (geomIter : list MPoint)
    (localToWorldMat : MMatrix) (multiIndex : nat) : Outcome :=
  run_deform geomIter (
    env ← inputValue Envelope (db_envelope dataBlock);
    if EPSILON >=? env then mret geomIter else
    amps ← inputValue Amp (db_amp dataBlock);
    freqs ← inputValue Freq (db_freq dataBlock);
    offsets ← inputValue Offset (db_offset dataBlock);
    octaves ← inputValue Octaves (db_octaves dataBlock);
    lacunarity ← inputValue Lacunarity (db_lacunarity dataBlock);
    persistence ← inputValue Persistence (db_persistence dataBlock);
    locatorWorldSpaceMat ← inputValue LocatorWorldSpace (db_locatorWorldSpace dataBlock);
    let localToLocatorSpaceMat := mat_mul localToWorldMat (mat_inverse locatorWorldSpaceMat) in
    let locatorToLocalSpaceMat := mat_mul locatorWorldSpaceMat (mat_inverse localToWorldMat) in
    mret (foldl (visit dataBlock multiIndex env amps freqs offsets octaves lacunarity
                   persistence localToLocatorSpaceMat locatorToLocalSpaceMat)
                geomIter (seq 0 (length geomIter)))).
End Deform.
End SkNoiseDeformer.

(** ** skNoiseDeformerMT.cpp: the multi-threaded deformer *)

Module SkNoiseDeformerMT.
Section Deform.
Context `{Platform}.
Local Open Scope flt_scope.

(** [SharedData].  C++ [int]s are integers of [Z]; [int_range] below bounds
    every value the tasks compute.  The position array behind [points] is
    the state the tasks update and is passed along separately. *)
Record SharedData : Type := mkSharedData {
  sd_start : Z;
  sd_end : Z;
  sd_weights : list float;
  sd_env : float;
  sd_width : Z;
  sd_numTasks : Z;
  sd_amps : Float3;
  sd_freqs : Float3;
  sd_offsets : Float3;
  sd_octaves : Z;
  sd_lacunarity : float;
  sd_persistence : float;
  sd_localToLocatorSpaceMat : MMatrix;
  sd_locatorToLocalSpaceMat : MMatrix
}.

(** [array[i]] for an [int] index. *)
Definition at_index {A} (l : list A) (i : Z) : option A :=
  if (i <? 0)%Z then None else l !! Z.to_nat i.

(** Lines 339-355, what the loop body does to the point at index [i] of
    [sharedPoints] given the weight at index [i] of [sharedWeights]. *)
Definition displace (sharedData : SharedData) (weight : float) (pos : MPoint) : MPoint :=
  let sharedEnv := sd_env sharedData in
  let sharedAmps := sd_amps sharedData in
  let sharedFreqs := sd_freqs sharedData in
  let sharedOffsets := sd_offsets sharedData in
  let sharedOctaves := sd_octaves sharedData in
  let sharedLacunarity := sd_lacunarity sharedData in
  let sharedPersistence := sd_persistence sharedData in
  (* *pos *= *sharedLocalToLocatorSpaceMat; *)
  let pos := pt_mul pos (sd_localToLocatorSpaceMat sharedData) in
  let noiseInput0 :=
    to_float (d_sub (d_mul (to_double (idx0 sharedFreqs)) (pt_x pos))
                (to_double (idx0 sharedOffsets))) in
  let noiseInput1 :=
    to_float (d_sub (d_mul (to_double (idx1 sharedFreqs)) (pt_y pos))
                (to_double (idx1 sharedOffsets))) in
  let noiseInput2 :=
    to_float (d_sub (d_mul (to_double (idx2 sharedFreqs)) (pt_z pos))
                (to_double (idx2 sharedOffsets))) in
  let envTimesWeight := f_mul sharedEnv weight in
  let x := d_add (pt_x pos) (to_double (f_mul (f_mul (idx0 sharedAmps)
             (fbm_noise3 noiseInput0 noiseInput1 noiseInput2
                sharedOctaves sharedPersistence sharedLacunarity)) envTimesWeight)) in
  let y := d_add (pt_y pos) (to_double (f_mul (f_mul (idx1 sharedAmps)
             (fbm_noise3 (f_add noiseInput0 (f_lit 123)) (f_add noiseInput1 (f_lit 456))
                (f_add noiseInput2 (f_lit 789))
                sharedOctaves sharedPersistence sharedLacunarity)) envTimesWeight)) in
  let z := d_add (pt_z pos) (to_double (f_mul (f_mul (idx2 sharedAmps)
             (fbm_noise3 (f_add noiseInput0 (f_lit 234)) (f_add noiseInput1 (f_lit 567))
                (f_add noiseInput2 (f_lit 890))
                sharedOctaves sharedPersistence sharedLacunarity)) envTimesWeight)) in
  let pos := mkPoint x y z (pt_w pos) in
  (* *pos *= *sharedLocatorToLocalSpaceMat; *)
  pt_mul pos (sd_locatorToLocalSpaceMat sharedData).

(** The range of ids a task works on (lines 329-330). *)
Definition threadStartId (sharedData : SharedData) (id : Z) : Z :=
  (sd_start sharedData + id * sd_width sharedData)%Z.

Definition threadEndId (sharedData : SharedData) (id : Z) : Z :=
  (threadStartId sharedData id + sd_width sharedData)%Z.

(** The loop of [threadTask]:
    [for (i = threadStartId; i < threadEndId && i <= sharedEnd; ++i)]. *)
Definition loop_test (sharedData : SharedData) (id i : Z) : bool :=
  ((i <? threadEndId sharedData id) && (i <=? sd_end sharedData))%Z.

Definition loop_body (sharedData : SharedData) (i : Z) (points : list MPoint)
  : list MPoint :=
  match at_index (sd_weights sharedData) i with
  | Some weight => alter (displace sharedData weight) (Z.to_nat i) points
  | None => points
  end.

(** [threadTask] run on its own from loop variable [i]; the loop makes at most
    [sharedWidth] turns, which is the fuel [threadTask] gives it. *)
Fixpoint threadTask_loop (fuel : nat) (sharedData : SharedData) (id i : Z)
    (points : list MPoint) : list MPoint :=
  match fuel with
  | O => points
  | S fuel' =>
      if loop_test sharedData id i
      then threadTask_loop fuel' sharedData id (i + 1)%Z (loop_body sharedData i points)
      else points
  end.

Definition threadTask (sharedData : SharedData) (id : Z) (points : list MPoint)
  : list MPoint :=
  threadTask_loop (Z.to_nat (sd_width sharedData)) sharedData id
    (threadStartId sharedData id) points.

(** The ids the loop of one task visits, in order. *)
Fixpoint threadTask_trace (fuel : nat) (sharedData : SharedData) (id i : Z) : list Z :=
  match fuel with
  | O => []
  | S fuel' =>
      if loop_test sharedData id i
      then i :: threadTask_trace fuel' sharedData id (i + 1)%Z
      else []
  end.

Definition task_indices (sharedData : SharedData) (id : Z) : list Z :=
  threadTask_trace (Z.to_nat (sd_width sharedData)) sharedData id
    (threadStartId sharedData id).

(** *** The thread pool

    [MThreadPool::executeAndJoin] runs the tasks concurrently.  The state of
    the parallel region is the shared point array and the loop variable of
    every task; the pool advances one task by one turn of its loop at a time,
    in an order the plugin does not control.  A turn reads and writes no point
    but the one at the loop variable of its task, which it writes in place
    five times (lines 340 to 355); the turn is one step here, so a state of
    the pool shows every point before or after its turn and never between
    those writes.  [write_step] below takes the writes one by one.  A
    schedule lists the tasks in the order they are advanced; when it is used
    up, the join lets every task run to its end. *)
Definition Pool : Type := (list MPoint * list Z)%type.

Definition pool_step (sharedData : SharedData) (st : Pool) (k : nat) : Pool :=
  match st.2 !! k with
  | Some i =>
      if loop_test sharedData (Z.of_nat k) i
      then (loop_body sharedData i st.1, <[k := (i + 1)%Z]> st.2)
      else st
  | None => st
  end.

Definition run_schedule (sharedData : SharedData) (sched : list nat) (st : Pool) : Pool :=
  foldl (pool_step sharedData) st sched.

Definition finish_task (sharedData : SharedData) (st : Pool) (k : nat) : Pool :=
  Nat.iter (Z.to_nat (sd_width sharedData)) (fun st => pool_step sharedData st k) st.

Definition join (sharedData : SharedData) (st : Pool) : Pool :=
  foldl (finish_task sharedData) st (seq 0 (Z.to_nat (sd_numTasks sharedData))).

(** [createTasksAndExecute]: task [i] gets [id = i]; then the region runs. *)
Definition createTasksAndExecute (sched : list nat) (sharedData : SharedData)
    (points : list MPoint) : list MPoint :=
  let numTasks := sd_numTasks sharedData in
  let threadData := (fun i => threadStartId sharedData (Z.of_nat i))
                      <$> seq 0 (Z.to_nat numTasks) in
  (join sharedData (run_schedule sharedData sched (points, threadData))).1.

(** [static_cast<int>(std::ceil(a / b))] for [int]s [0 <= a] and [0 < b]: the
    quotient of two such [double]s is never rounded onto an integer it does
    not equal, so the result is the integer ceiling. *)
Definition ceil_div (a b : Z) : Z := ((a + b - 1) / b)%Z.

(** [SkNoiseDeformerMT::deform], under the schedule [sched] of the pool.
    [geomIter] is the list of the points the iterator visits, and the point
    at place [j] of it has [geomIter.index() = j]: the deformer covers the
    whole mesh.  The source stores the weight of a point at its [index()] and
    [threadTask] reads it at the place of the point in [points]; for a
    deformer that covers part of a mesh the two differ, which this list
    cannot express.  The task count is meant to be at least 1, the minimum
    [initialize] sets: with a count of 0 the cast that gives the width is
    undefined and with a negative count [new ThreadData[numTasks]] throws, so
    what this definition gives for a count below 1 is not what the source
    does. *)
Definition deform (sched : list nat) (dataBlock : MDataBlock) (geomIter : list MPoint)
    (localToWorldMat : MMatrix) (multiIndex : nat) : Outcome :=
  run_deform geomIter (
    env ← inputValue Envelope (db_envelope dataBlock);
    if EPSILON >=? env then mret geomIter else
    numTasks ← inputValue NumTasks (db_numTasks dataBlock);
    amps ← inputValue Amp (db_amp dataBlock);
    freqs ← inputValue Freq (db_freq dataBlock);
    offsets ← inputValue Offset (db_offset dataBlock);
    octaves ← inputValue Octaves (db_octaves dataBlock);
    lacunarity ← inputValue Lacunarity (db_lacunarity dataBlock);
    persistence ← inputValue Persistence (db_persistence dataBlock);
    locatorWorldSpaceMat ← inputValue LocatorWorldSpace (db_locatorWorldSpace dataBlock);
    let localToLocatorSpaceMat := mat_mul localToWorldMat (mat_inverse locatorWorldSpaceMat) in
    let locatorToLocalSpaceMat := mat_mul locatorWorldSpaceMat (mat_inverse localToWorldMat) in
    (* read all points, store all weight values; points.length() - 1 is an
       unsigned difference stored in an int, -1 for an empty array *)
    let points := geomIter in
    let numPoints := length points in
    let weights := weightValue dataBlock multiIndex <$> seq 0 numPoints in
    let sd_start := 0%Z in
    let sd_end := (Z.of_nat (length points) - 1)%Z in
    let sharedData :=
      mkSharedData sd_start sd_end weights env
        (ceil_div (sd_end - sd_start + 1) numTasks) numTasks
        amps freqs offsets octaves lacunarity persistence
        localToLocatorSpaceMat locatorToLocalSpaceMat in
    (* setAllPositions(points) after the parallel region *)
    mret (createTasksAndExecute sched sharedData points)).
End Deform.
End SkNoiseDeformerMT.

(** ** What the specification says, in its own words *)

Section Specification.
Context `{Platform}.
Local Open Scope flt_scope.

(** The values of the node's attributes for one invocation. *)
Record Attrs : Type := mkAttrs {
  a_envelope : float;
  a_numTasks : Z;
  a_amp : Float3;
  a_freq : Float3;
  a_offset : Float3;
  a_octaves : Z;
  a_lacunarity : float;
  a_persistence : float;
  a_locatorWorldSpace : MMatrix
}.

(** The data block in which every attribute is readable and has the value
    given by [a]. *)
Definition block (a : Attrs) (weights : nat -> nat -> float) : MDataBlock :=
  mkDataBlock _ (Some (a_envelope a)) (Some (a_numTasks a)) (Some (a_amp a))
    (Some (a_freq a)) (Some (a_offset a)) (Some (a_octaves a)) (Some (a_lacunarity a))
    (Some (a_persistence a)) (Some (a_locatorWorldSpace a)) weights.

Definition with_numTasks (t : Z) (a : Attrs) : Attrs :=
  mkAttrs (a_envelope a) t (a_amp a) (a_freq a) (a_offset a) (a_octaves a)
    (a_lacunarity a) (a_persistence a) (a_locatorWorldSpace a).

(** Section 4.5: the two frame transforms. *)
Definition toNoiseSpace (localToWorld referenceWorld : MMatrix) : MMatrix :=
  mat_mul localToWorld (mat_inverse referenceWorld).

Definition fromNoiseSpace (localToWorld referenceWorld : MMatrix) : MMatrix :=
  mat_mul referenceWorld (mat_inverse localToWorld).

(** Section 4.3, steps 2 to 6, for one vertex [p] with weight [weight]. *)
Definition pipeline (a : Attrs) (localToWorld : MMatrix) (weight : float) (p : MPoint)
  : MPoint :=
  let referenceWorld := a_locatorWorldSpace a in
  let fbm x y z := fbm_noise3 x y z (a_octaves a) (a_persistence a) (a_lacunarity a) in
  (* 2. p' = p * toNoiseSpace *)
  let p' := pt_mul p (toNoiseSpace localToWorld referenceWorld) in
  (* 3. n[i] = frequency[i] * p'[i] - offset[i] *)
  let n (frequency offset : float) (c : double) : float :=
    to_float (d_sub (d_mul (to_double frequency) c) (to_double offset)) in
  let nx := n (idx0 (a_freq a)) (idx0 (a_offset a)) (pt_x p') in
  let ny := n (idx1 (a_freq a)) (idx1 (a_offset a)) (pt_y p') in
  let nz := n (idx2 (a_freq a)) (idx2 (a_offset a)) (pt_z p') in
  (* 4. three evaluations, the second and third at shifted coordinates *)
  let fbmX := fbm nx ny nz in
  let fbmY := fbm (f_add nx (f_lit 123)) (f_add ny (f_lit 456)) (f_add nz (f_lit 789)) in
  let fbmZ := fbm (f_add nx (f_lit 234)) (f_add ny (f_lit 567)) (f_add nz (f_lit 890)) in
  (* 5. p'[i] += amplitude[i] * fbmResult[i] * envelope * weight *)
  let moved (c : double) (amplitude fbmResult : float) : double :=
    d_add c (to_double (f_mul (f_mul (f_mul amplitude fbmResult) (a_envelope a)) weight)) in
  let p'' := mkPoint (moved (pt_x p') (idx0 (a_amp a)) fbmX)
                     (moved (pt_y p') (idx1 (a_amp a)) fbmY)
                     (moved (pt_z p') (idx2 (a_amp a)) fbmZ) (pt_w p') in
  (* 6. pOut = p' * fromNoiseSpace *)
  pt_mul p'' (fromNoiseSpace localToWorld referenceWorld).

(** Section 4.2 as a sum: the frequency and amplitude of octave [k]. *)
Fixpoint octave_freq (lacunarity : float) (k : nat) : float :=
  match k with
  | O => f_lit 1
  | S k' => f_mul (octave_freq lacunarity k') lacunarity
  end.

Fixpoint octave_amp (persistence : float) (k : nat) : float :=
  match k with
  | O => f_lit 1
  | S k' => f_mul (octave_amp persistence k') persistence
  end.

Definition octave_layer (x y z persistence lacunarity : float) (k : nat) : float :=
  let freq := octave_freq lacunarity k in
  f_mul (noise3 (f_mul x freq) (f_mul y freq) (f_mul z freq)) (octave_amp persistence k).

Definition fbm_sum (x y z : float) (octaves : nat) (persistence lacunarity : float)
  : float :=
  foldl (fun sum k => f_add sum (octave_layer x y z persistence lacunarity k))
        (f_lit 0) (seq 0 octaves).

(** The laws of exact arithmetic that let formulas of the specification be
    compared with the grouping and the conversions of the C++ expressions. *)
Class ExactArith : Prop := {
  f_mul_assoc : forall a b c : float, f_mul (f_mul a b) c = f_mul a (f_mul b c);
  f_mul_1_l : forall a : float, f_mul (f_lit 1) a = a;
  f_mul_1_r : forall a : float, f_mul a (f_lit 1) = a;
  f_add_0_l : forall a : float, f_add (f_lit 0) a = a;
  f_add_lit : forall p q : Q, f_add (f_lit p) (f_lit q) = f_lit (p + q);
  f_leb_lit : forall p q : Q, f_leb (f_lit p) (f_lit q) = Qle_bool p q;
  d_mul_1_l : forall a : double, d_mul (d_lit 1) a = a;
  d_sub_0_r : forall a : double, d_sub a (d_lit 0) = a;
  d_add_0_l : forall a : double, d_add (d_lit 0) a = a;
  to_double_lit : forall q : Q, to_double (f_lit q) = d_lit q;
  to_float_lit : forall q : Q, to_float (d_lit q) = f_lit q;
  mat_inverse_identity : mat_inverse mat_identity = mat_identity;
  mat_mul_identity : mat_mul mat_identity mat_identity = mat_identity;
  pt_mul_identity : forall p : MPoint, pt_mul p mat_identity = p
}.

(** The vertex buffer a deformer without per-vertex tests would produce. *)
Definition displaced (a : Attrs) (localToWorld : MMatrix) (weights : nat -> float)
    (geom : list MPoint) : list MPoint :=
  imap (fun j p =>
          SkNoiseDeformer.displace (a_envelope a) (weights j) (a_amp a) (a_freq a)
            (a_offset a) (a_octaves a) (a_lacunarity a) (a_persistence a)
            (mat_mul localToWorld (mat_inverse (a_locatorWorldSpace a)))
            (mat_mul (a_locatorWorldSpace a) (mat_inverse localToWorld)) p) geom.
(** The geometry the single-threaded deformer leaves when it passes the
    envelope test. *)
Definition st_result (a : Attrs) (localToWorld : MMatrix) (weights : nat -> float)
    (geom : list MPoint) : list MPoint :=
  imap (fun j p =>
          if EPSILON >=? weights j then p
          else SkNoiseDeformer.displace (a_envelope a) (weights j) (a_amp a) (a_freq a)
                 (a_offset a) (a_octaves a) (a_lacunarity a) (a_persistence a)
                 (mat_mul localToWorld (mat_inverse (a_locatorWorldSpace a)))
                 (mat_mul (a_locatorWorldSpace a) (mat_inverse localToWorld)) p) geom.

(** What each deformer leaves at a vertex [p] of weight [weight]. *)
Definition st_vertex (a : Attrs) (localToWorld : MMatrix) (weight : float) (p : MPoint)
  : MPoint :=
  if (EPSILON >=? a_envelope a) || (EPSILON >=? weight) then p
  else SkNoiseDeformer.displace (a_envelope a) weight (a_amp a) (a_freq a)
         (a_offset a) (a_octaves a) (a_lacunarity a) (a_persistence a)
         (toNoiseSpace localToWorld (a_locatorWorldSpace a))
         (fromNoiseSpace localToWorld (a_locatorWorldSpace a)) p.

Definition mt_vertex (a : Attrs) (localToWorld : MMatrix) (weight : float) (p : MPoint)
  : MPoint :=
  if EPSILON >=? a_envelope a then p
  else SkNoiseDeformer.displace (a_envelope a) weight (a_amp a) (a_freq a)
         (a_offset a) (a_octaves a) (a_lacunarity a) (a_persistence a)
         (toNoiseSpace localToWorld (a_locatorWorldSpace a))
         (fromNoiseSpace localToWorld (a_locatorWorldSpace a)) p.

End Specification.

(** ** The state of a parallel region *)

Section Region.
Context `{Platform}.
Import SkNoiseDeformerMT.

(** What a task leaves at index [j] when it gets there. *)
Definition weighted (sharedData : SharedData) (j : nat) (p : MPoint) : MPoint :=
  match sd_weights sharedData !! j with
  | Some weight => displace sharedData weight p
  | None => p
  end.

(** Index [j] lies below the loop variable of the task whose range holds it. *)
Definition visited (sharedData : SharedData) (st : Pool) (j : Z) : bool :=
  match st.2 !! Z.to_nat (j / sd_width sharedData) with
  | Some i => (j <? i)%Z
  | None => false
  end.

(** What holds of the pool after every loop turn of the region started on
    [points0]. *)
Record region_inv (sharedData : SharedData) (points0 : list MPoint) (st : Pool)
  : Prop := mkRegionInv {
  inv_tasks : length st.2 = Z.to_nat (sd_numTasks sharedData);
  inv_range : forall k i, st.2 !! k = Some i ->
    (Z.of_nat k * sd_width sharedData <= i
     <= Z.of_nat k * sd_width sharedData + sd_width sharedData)%Z;
  inv_length : length st.1 = length points0;
  inv_points : forall j p, points0 !! j = Some p ->
    st.1 !! j = Some (if visited sharedData st (Z.of_nat j)
                      then weighted sharedData j p else p)
}.

(** Task [k] has left its loop. *)
Definition finished (sharedData : SharedData) (st : Pool) (k : nat) : Prop :=
  forall i, st.2 !! k = Some i -> loop_test sharedData (Z.of_nat k) i = false.

(** The shared data [deform] packs for [n] points and [t] tasks, as far as
    the ranges are concerned. *)
Definition packed (sharedData : SharedData) (n t : Z) : Prop :=
  sd_start sharedData = 0%Z /\ sd_end sharedData = (n - 1)%Z /\
  sd_numTasks sharedData = t /\
  sd_width sharedData = ceil_div (sd_end sharedData - sd_start sharedData + 1) t.
End Region.

(** ** A reference platform: exact rational arithmetic

    Both scalar types are the rationals in canonical form, a matrix is four
    rows of four rationals and a point is multiplied as a row vector.  The
    source of libnoise is not at hand, so [noise3] is a fixed rational
    function here; it stands for the real kernel only where a definition has
    to be evaluated on concrete numbers. *)

Module Reference.

Definition Row : Type := MPoint_ Qc.
Record Mat4 : Type := mkMat4 { r0 : Row; r1 : Row; r2 : Row; r3 : Row }.

Definition row_mul (p : Row) (m : Mat4) : Row :=
  let col (f : Row -> Qc) : Qc :=
    Qcplus (Qcplus (Qcplus (Qcmult (pt_x p) (f (r0 m))) (Qcmult (pt_y p) (f (r1 m))))
                   (Qcmult (pt_z p) (f (r2 m)))) (Qcmult (pt_w p) (f (r3 m))) in
  mkPoint (col pt_x) (col pt_y) (col pt_z) (col pt_w).

Definition mul (a b : Mat4) : Mat4 :=
  mkMat4 (row_mul (r0 a) b) (row_mul (r1 a) b) (row_mul (r2 a) b) (row_mul (r3 a) b).

Definition identity : Mat4 :=
  mkMat4 (mkPoint 1%Qc 0%Qc 0%Qc 0%Qc) (mkPoint 0%Qc 1%Qc 0%Qc 0%Qc)
         (mkPoint 0%Qc 0%Qc 1%Qc 0%Qc) (mkPoint 0%Qc 0%Qc 0%Qc 1%Qc).

Definition rows (m : Mat4) : list (list Qc) :=
  map (fun r : Row => [pt_x r; pt_y r; pt_z r; pt_w r]) [r0 m; r1 m; r2 m; r3 m].

(** Determinant by expansion along the first row; [n] is the size. *)
Fixpoint expand (det' : list (list Qc) -> Qc) (rest : list (list Qc))
    (row : list Qc) (j : nat) (sign : Qc) : Qc :=
  match row with
  | [] => 0%Qc
  | a :: row' =>
      Qcplus (Qcmult (Qcmult sign a) (det' (map (delete j) rest)))
             (expand det' rest row' (S j) (Qcopp sign))
  end.

Fixpoint det (n : nat) (m : list (list Qc)) : Qc :=
  match n, m with
  | O, _ => 1%Qc
  | S n', row :: rest => expand (det n') rest row 0%nat 1%Qc
  | S _, [] => 0%Qc
  end.

Definition det4x4 (m : Mat4) : Qc := det 4 (rows m).

Definition cofactor (m : Mat4) (i j : nat) : Qc :=
  let minor := det 3 (map (delete j) (delete i (rows m))) in
  if Nat.even (i + j) then minor else Qcopp minor.

(** The adjugate over the determinant; a matrix without an inverse gets the
    zero matrix, division by zero being zero in [Qc]. *)
Definition inverse (m : Mat4) : Mat4 :=
  let d := det4x4 m in
  let e (i j : nat) : Qc := Qcdiv (cofactor m j i) d in
  let row (i : nat) : Row := mkPoint (e i 0%nat) (e i 1%nat) (e i 2%nat) (e i 3%nat) in
  mkMat4 (row 0%nat) (row 1%nat) (row 2%nat) (row 3%nat).

Definition ref_noise3 (x y z : Qc) : Qc :=
  Qcdiv (Qcplus (Qcplus x (Qcmult (Q2Qc 2) y)) (Qcmult (Q2Qc 3) z))
        (Qcplus (Q2Qc 4) (Qcplus (Qcplus (Qcmult x x) (Qcmult y y)) (Qcmult z z))).

#[export] Instance platform : Platform := {|
  float := Qc;
  double := Qc;
  f_lit := Q2Qc;
  d_lit := Q2Qc;
  f_add := Qcplus;
  f_mul := Qcmult;
  f_leb := fun a b => Qle_bool a b;
  d_add := Qcplus;
  d_sub := Qcminus;
  d_mul := Qcmult;
  to_double := fun a => a;
  to_float := fun a => a;
  MMatrix := Mat4;
  mat_identity := identity;
  mat_mul := mul;
  mat_inverse := inverse;
  pt_mul := row_mul;
  noise3 := ref_noise3
|}.

Definition vec3 (a b c : Q) : Float3 := mkFloat3 (Q2Qc a) (Q2Qc b) (Q2Qc c).

Definition point (x y z : Q) : MPoint := mkPoint (Q2Qc x) (Q2Qc y) (Q2Qc z) 1%Qc.

(** The coordinates of a point as plain fractions, for comparison. *)
Definition coords (p : MPoint) : list Q :=
  [this (pt_x p); this (pt_y p); this (pt_z p); this (pt_w p)].

(** Default noise attributes (section 6 of the specification) around a given
    envelope, task count and locator matrix. *)
Definition attrs (env : Q) (numTasks : Z) (locator : Mat4) : Attrs :=
  mkAttrs (Q2Qc env) numTasks (vec3 1 1 1) (vec3 1 1 1) (vec3 0 0 0) 1
    (Q2Qc 2) (Q2Qc (1 # 2)) locator.

(** What [SkNoiseDeformerMT::deform] packs for [n] points of weight one. *)
Definition shared (n : nat) (numTasks : Z) : SkNoiseDeformerMT.SharedData :=
  SkNoiseDeformerMT.mkSharedData 0 (Z.of_nat n - 1) (replicate n 1%Qc) 1%Qc
    (SkNoiseDeformerMT.ceil_div (Z.of_nat n - 1 - 0 + 1) numTasks) numTasks
    (vec3 1 1 1) (vec3 1 1 1) (vec3 0 0 0) 1 (Q2Qc 2) (Q2Qc (1 # 2)) identity identity.

(** A matrix that flattens the z axis: it has no inverse. *)
Definition flatten_z : Mat4 :=
  mkMat4 (mkPoint 1%Qc 0%Qc 0%Qc 0%Qc) (mkPoint 0%Qc 1%Qc 0%Qc 0%Qc)
         (mkPoint 0%Qc 0%Qc 0%Qc 0%Qc) (mkPoint 0%Qc 0%Qc 0%Qc 1%Qc).

End Reference.

(** Bounds of the C++ [int]. *)
Definition INT_MAX : Z := 2147483647.

(** * Properties *)

(** ** Reading the data block, one attribute after the other *)

Definition INT_MIN : Z := -2147483648.

(** A value a C++ [int] can hold. *)
Definition fits_int (x : Z) : Prop := (INT_MIN <= x <= INT_MAX)%Z.

#[export] Instance Attr_eq_dec : EqDecision Attr.
Proof. solve_decision. Defined.

Section Reads.
Context `{Platform}.
Local Open Scope flt_scope.

(** [inputValue] of the attribute leaves a success status. *)
Definition readable (dataBlock : MDataBlock) (attr : Attr) : bool :=
  match attr with
  | Envelope => bool_decide (is_Some (db_envelope dataBlock))
  | NumTasks => bool_decide (is_Some (db_numTasks dataBlock))
  | Amp => bool_decide (is_Some (db_amp dataBlock))
  | Freq => bool_decide (is_Some (db_freq dataBlock))
  | Offset => bool_decide (is_Some (db_offset dataBlock))
  | Octaves => bool_decide (is_Some (db_octaves dataBlock))
  | Lacunarity => bool_decide (is_Some (db_lacunarity dataBlock))
  | Persistence => bool_decide (is_Some (db_persistence dataBlock))
  | LocatorWorldSpace => bool_decide (is_Some (db_locatorWorldSpace dataBlock))
  end.

(** The order in which each [deform] asks for its attributes. *)
Definition st_read_order : list Attr :=
  [Envelope; Amp; Freq; Offset; Octaves; Lacunarity; Persistence; LocatorWorldSpace].

Definition mt_read_order : list Attr :=
  [Envelope; NumTasks; Amp; Freq; Offset; Octaves; Lacunarity; Persistence;
   LocatorWorldSpace].

(** The attributes of [order] up to and including the first unreadable one. *)
Fixpoint requested (dataBlock : MDataBlock) (order : list Attr) : list Attr :=
  match order with
  | [] => []
  | attr :: order' =>
      attr :: (if readable dataBlock attr then requested dataBlock order' else [])
  end.

(** The envelope is readable and at most [EPSILON]. *)
Definition returns_early (dataBlock : MDataBlock) : bool :=
  match db_envelope dataBlock with
  | Some env => EPSILON >=? env
  | None => false
  end.

(** The task in whose range the id [j] lies. *)
Definition owner (sharedData : SkNoiseDeformerMT.SharedData) (j : nat) : nat :=
  Z.to_nat (Z.of_nat j / SkNoiseDeformerMT.sd_width sharedData).

(** The pool as [createTasksAndExecute] sets it up. *)
Definition region_start (sharedData : SkNoiseDeformerMT.SharedData)
    (points : list MPoint) : SkNoiseDeformerMT.Pool :=
  (points, (fun i => SkNoiseDeformerMT.threadStartId sharedData (Z.of_nat i))
             <$> seq 0 (Z.to_nat (SkNoiseDeformerMT.sd_numTasks sharedData))).

(** The weights of the points from [offset] on. *)
Definition shifted (offset : nat) (weights : nat -> nat -> float) : nat -> nat -> float :=
  fun multiIndex index => weights multiIndex (offset + index)%nat.

(** The attributes [a] under another envelope. *)
Definition with_envelope (env : float) (a : Attrs) : Attrs :=
  mkAttrs env (a_numTasks a) (a_amp a) (a_freq a) (a_offset a) (a_octaves a)
    (a_lacunarity a) (a_persistence a) (a_locatorWorldSpace a).

(** The laws of exact arithmetic under which a displacement scaled by zero is
    no displacement and going to locator space and back is going nowhere. *)
Class NullLaws : Prop := {
  null_f_mul_0_r : forall a : float, f_mul a (f_lit 0) = f_lit 0;
  null_to_double_0 : to_double (f_lit 0) = d_lit 0;
  null_d_add_0_r : forall a : double, d_add a (d_lit 0) = a;
  null_pt_mul_mul : forall (p : MPoint) (m1 m2 : MMatrix),
    pt_mul (pt_mul p m1) m2 = pt_mul p (mat_mul m1 m2);
  null_pt_mul_identity : forall p : MPoint, pt_mul p mat_identity = p
}.
End Reads.

(** A shear, a scaling and a translation in one invertible matrix. *)
Definition ref_frame : Reference.Mat4 :=
  Reference.mkMat4 (mkPoint (Q2Qc 2) 0%Qc 0%Qc 0%Qc) (mkPoint 1%Qc 1%Qc 0%Qc 0%Qc)
    (mkPoint 0%Qc 0%Qc 1%Qc 0%Qc) (mkPoint (Q2Qc 3) (Q2Qc 4) (Q2Qc 5) 1%Qc).

(** ** Node initialisation

    [initialize] builds the attributes of the node class with Maya's function
    sets.  [create], [addAttribute] and [attributeAffects] leave a status that
    [CHECK_ERROR] tests; which of these calls succeed is up to Maya and is a
    parameter [ok] here.  The setters are applied to the attribute the
    function set has just created. *)

Inductive AttrType : Type := kPoint | kInt | kFloat | kMatrixDouble.

Inductive Setting : Type :=
| SetDefault3 (x y z : Q)
| SetMin (m : Z)
| SetKeyable (b : bool)
| SetStorable (b : bool)
| SetHidden (b : bool).

(** An attribute as created: its handle, long and short name, type, the
    default given to [create], and the settings applied since, in order. *)
Record Declared : Type := mkDeclared {
  d_attr : Attr;
  d_long : string;
  d_short : string;
  d_type : AttrType;
  d_default : option Q;
  d_settings : list Setting
}.

Definition with_setting (s : Setting) (d : Declared) : Declared :=
  mkDeclared (d_attr d) (d_long d) (d_short d) (d_type d) (d_default d)
    (d_settings d ++ [s]).

(** The calls whose status is tested. *)
Inductive InitCall : Type :=
| CallCreate (attr : Attr)
| CallAddAttribute (attr : Attr)
| CallAttributeAffects (attr : Attr).

(** The node class under construction: the attributes added, the attributes
    declared to affect [outputGeom], and the tested calls made so far. *)
Record NodeClass : Type := mkNodeClass {
  nc_attributes : list Declared;
  nc_affects : list Attr;
  nc_calls : list InitCall
}.

Definition Init (A : Type) : Type :=
  (InitCall -> bool) -> NodeClass -> NodeClass * option A.

#[export] Instance Init_ret : MRet Init := fun A a ok nc => (nc, Some a).

#[export] Instance Init_bind : MBind Init := fun A B k m ok nc =>
  match m ok nc with
  | (nc', Some a) => k a ok nc'
  | (nc', None) => (nc', None)
  end.

Definition called (c : InitCall) (nc : NodeClass) : NodeClass :=
  mkNodeClass (nc_attributes nc) (nc_affects nc) (nc_calls nc ++ [c]).

(** [attr = fn.create(long, short, ..., &stat); CHECK_ERROR(stat, ...)] *)
Definition create (attr : Attr) (long short : string) (type : AttrType)
    (default : option Q) : Init Declared :=
  fun ok nc =>
    (called (CallCreate attr) nc,
     if ok (CallCreate attr) then Some (mkDeclared attr long short type default [])
     else None).

(** [stat = addAttribute(attr); CHECK_ERROR(stat, ...)] *)
Definition addAttribute (d : Declared) : Init unit :=
  fun ok nc =>
    let nc := called (CallAddAttribute (d_attr d)) nc in
    if ok (CallAddAttribute (d_attr d))
    then (mkNodeClass (nc_attributes nc ++ [d]) (nc_affects nc) (nc_calls nc), Some tt)
    else (nc, None).

(** [stat = attributeAffects(attr, outputGeom); CHECK_ERROR(stat, ...)] *)
Definition attributeAffects (attr : Attr) : Init unit :=
  fun ok nc =>
    let nc := called (CallAttributeAffects attr) nc in
    if ok (CallAttributeAffects attr)
    then (mkNodeClass (nc_attributes nc) (nc_affects nc ++ [attr]) (nc_calls nc), Some tt)
    else (nc, None).

Definition run_initialize (body : Init unit) (ok : InitCall -> bool)
  : MStatus * NodeClass :=
  match body ok (mkNodeClass [] [] []) with
  | (nc, Some _) => (kSuccess, nc)
  | (nc, None) => (kFailure, nc)
  end.

(** The noise attributes both node classes have, from the amplitude on
    (skNoiseDeformer.cpp, lines 280-346; the same text in the multi-threaded
    source). *)
Definition noise_attributes : Init unit :=
  (* amplitude attr *)
  amp ← create Amp "amplitude" "amp" kPoint None;
  let amp := with_setting (SetKeyable true) (with_setting (SetDefault3 1 1 1) amp) in
  _ ← addAttribute amp;
  _ ← attributeAffects Amp;
  (* frequency attr *)
  freq ← create Freq "frequency" "freq" kPoint None;
  let freq := with_setting (SetKeyable true) (with_setting (SetDefault3 1 1 1) freq) in
  _ ← addAttribute freq;
  _ ← attributeAffects Freq;
  (* offset attr *)
  offset ← create Offset "offset" "off" kPoint None;
  let offset := with_setting (SetKeyable true) (with_setting (SetDefault3 0 0 0) offset) in
  _ ← addAttribute offset;
  _ ← attributeAffects Offset;
  (* octaves attr *)
  octaves ← create Octaves "octaves" "oct" kInt (Some 1%Q);
  let octaves := with_setting (SetKeyable true) (with_setting (SetMin 1) octaves) in
  _ ← addAttribute octaves;
  _ ← attributeAffects Octaves;
  (* lacunarity attr *)
  lacunarity ← create Lacunarity "lacunarity" "lac" kFloat (Some 2%Q);
  let lacunarity := with_setting (SetKeyable true) lacunarity in
  _ ← addAttribute lacunarity;
  _ ← attributeAffects Lacunarity;
  (* persistence attr *)
  persistence ← create Persistence "persistence" "per" kFloat (Some (1 # 2)%Q);
  let persistence := with_setting (SetKeyable true) persistence in
  _ ← addAttribute persistence;
  _ ← attributeAffects Persistence;
  (* locatorWorldSpace attr *)
  locatorWorldSpace ← create LocatorWorldSpace "locatorWorldSpace" "locsp"
                        kMatrixDouble None;
  let locatorWorldSpace :=
    with_setting (SetHidden true) (with_setting (SetStorable false) locatorWorldSpace) in
  _ ← addAttribute locatorWorldSpace;
  _ ← attributeAffects LocatorWorldSpace;
  mret tt.

Module SkNoiseDeformerNode.
(** [SkNoiseDeformer::initialize] *)
Definition initialize : Init unit := noise_attributes.
End SkNoiseDeformerNode.

Module SkNoiseDeformerMTNode.
(** [SkNoiseDeformerMT::initialize]: the task count first; it is neither made
    keyable nor declared to affect [outputGeom]. *)
Definition initialize : Init unit :=
  (* numTasks attr *)
  numTasks ← create NumTasks "numTasks" "nt" kInt (Some 16%Q);
  let numTasks := with_setting (SetMin 1) numTasks in
  _ ← addAttribute numTasks;
  noise_attributes.
End SkNoiseDeformerMTNode.

(** The tested calls of each [initialize], in the order of the source. *)
Definition noise_calls : list InitCall :=
  flat_map (fun attr => [CallCreate attr; CallAddAttribute attr; CallAttributeAffects attr])
    [Amp; Freq; Offset; Octaves; Lacunarity; Persistence; LocatorWorldSpace].

Definition st_calls : list InitCall := noise_calls.

Definition mt_calls : list InitCall :=
  CallCreate NumTasks :: CallAddAttribute NumTasks :: noise_calls.

(** The calls of [calls] up to and including the first that fails. *)
Fixpoint attempted (ok : InitCall -> bool) (calls : list InitCall) : list InitCall :=
  match calls with
  | [] => []
  | c :: calls' => c :: (if ok c then attempted ok calls' else [])
  end.

(** The attributes a list of successful calls has added, and has declared to
    affect [outputGeom]. *)
Definition added_by (calls : list InitCall) : list Attr :=
  omap (fun c => match c with CallAddAttribute attr => Some attr | _ => None end) calls.

Definition affecting_by (calls : list InitCall) : list Attr :=
  omap (fun c => match c with CallAttributeAffects attr => Some attr | _ => None end)
       calls.


(** ** The loop turn of [threadTask], write by write

    A turn of the loop writes the point at index [i] of [sharedPoints] in
    place five times: once at line 340, once at each of the lines 350 to 352
    and once at line 355.  Here the pool advances one task by one of these
    writes at a time, so the writes of different tasks interleave in any
    order.  The loop test and the locals of the turn are the task's own and
    go with its first write, [++i] goes with its last. *)

Section Writes.
Context `{Platform}.
Import SkNoiseDeformerMT.
Local Open Scope flt_scope.

(** [noiseInput] and [envTimesWeight] (lines 343 to 347). *)
Record TurnLocals : Type := mkTurnLocals {
  noiseInput0 : float;
  noiseInput1 : float;
  noiseInput2 : float;
  envTimesWeight : float
}.

(** [*pos *= *sharedLocalToLocatorSpaceMat;] (line 340) *)
Definition first_write (sharedData : SharedData) (pos : MPoint) : MPoint :=
  pt_mul pos (sd_localToLocatorSpaceMat sharedData).

(** The locals, computed from the point as the first write leaves it. *)
Definition precompute (sharedData : SharedData) (weight : float) (pos : MPoint)
  : TurnLocals :=
  mkTurnLocals
    (to_float (d_sub (d_mul (to_double (idx0 (sd_freqs sharedData))) (pt_x pos))
                 (to_double (idx0 (sd_offsets sharedData)))))
    (to_float (d_sub (d_mul (to_double (idx1 (sd_freqs sharedData))) (pt_y pos))
                 (to_double (idx1 (sd_offsets sharedData)))))
    (to_float (d_sub (d_mul (to_double (idx2 (sd_freqs sharedData))) (pt_z pos))
                 (to_double (idx2 (sd_offsets sharedData)))))
    (f_mul (sd_env sharedData) weight).

(** The write a turn makes after [pc] earlier ones, for [pc] from 1 to 4:
    [pos->x += ...] (line 350), [pos->y += ...] (line 351), [pos->z += ...]
    (line 352) and [*pos *= *sharedLocatorToLocalSpaceMat] (line 355). *)
Definition later_write (sharedData : SharedData) (l : TurnLocals) (pc : nat)
    (pos : MPoint) : MPoint :=
  let sharedAmps := sd_amps sharedData in
  let sharedOctaves := sd_octaves sharedData in
  let sharedLacunarity := sd_lacunarity sharedData in
  let sharedPersistence := sd_persistence sharedData in
  match pc with
  | 1%nat =>
      mkPoint
        (d_add (pt_x pos) (to_double (f_mul (f_mul (idx0 sharedAmps)
           (fbm_noise3 (noiseInput0 l) (noiseInput1 l) (noiseInput2 l)
              sharedOctaves sharedPersistence sharedLacunarity)) (envTimesWeight l))))
        (pt_y pos) (pt_z pos) (pt_w pos)
  | 2%nat =>
      mkPoint (pt_x pos)
        (d_add (pt_y pos) (to_double (f_mul (f_mul (idx1 sharedAmps)
           (fbm_noise3 (f_add (noiseInput0 l) (f_lit 123)) (f_add (noiseInput1 l) (f_lit 456))
              (f_add (noiseInput2 l) (f_lit 789))
              sharedOctaves sharedPersistence sharedLacunarity)) (envTimesWeight l))))
        (pt_z pos) (pt_w pos)
  | 3%nat =>
      mkPoint (pt_x pos) (pt_y pos)
        (d_add (pt_z pos) (to_double (f_mul (f_mul (idx2 sharedAmps)
           (fbm_noise3 (f_add (noiseInput0 l) (f_lit 234)) (f_add (noiseInput1 l) (f_lit 567))
              (f_add (noiseInput2 l) (f_lit 890))
              sharedOctaves sharedPersistence sharedLacunarity)) (envTimesWeight l))))
        (pt_w pos)
  | _ => pt_mul pos (sd_locatorToLocalSpaceMat sharedData)
  end.

(** A task between two writes: its loop variable, the number of writes its
    current turn has made, and its locals once they are set. *)
Record TaskState : Type := mkTaskState {
  ts_i : Z;
  ts_pc : nat;
  ts_locals : option TurnLocals
}.

Definition WritePool : Type := (list MPoint * list TaskState)%type.

(** Task [k] makes its next write.  A loop variable outside the arrays, which
    no region started by [deform] produces, leaves the pool as it is. *)
Definition write_step (sharedData : SharedData) (st : WritePool) (k : nat) : WritePool :=
  match st.2 !! k with
  | None => st
  | Some ts =>
      let i := ts_i ts in
      match ts_pc ts with
      | O =>
          if loop_test sharedData (Z.of_nat k) i then
            let points := alter (first_write sharedData) (Z.to_nat i) st.1 in
            match at_index points i, at_index (sd_weights sharedData) i with
            | Some pos, Some weight =>
                (points,
                 <[k := mkTaskState i 1 (Some (precompute sharedData weight pos))]> st.2)
            | _, _ => st
            end
          else st
      | S pc =>
          match ts_locals ts with
          | Some l =>
              (alter (later_write sharedData l (S pc)) (Z.to_nat i) st.1,
               <[k := if decide (pc = 3%nat) then mkTaskState (i + 1) 0 (Some l)
                      else mkTaskState i (S (S pc)) (Some l)]> st.2)
          | None => st
          end
      end
  end.

Definition run_writes (sharedData : SharedData) (sched : list nat) (st : WritePool)
  : WritePool :=
  foldl (write_step sharedData) st sched.

(** A task makes at most [5 * sharedWidth] writes. *)
Definition finish_writes (sharedData : SharedData) (st : WritePool) (k : nat)
  : WritePool :=
  Nat.iter (5 * Z.to_nat (sd_width sharedData)) (fun st => write_step sharedData st k) st.

Definition join_writes (sharedData : SharedData) (st : WritePool) : WritePool :=
  foldl (finish_writes sharedData) st (seq 0 (Z.to_nat (sd_numTasks sharedData))).

(** The pool as [createTasksAndExecute] sets it up. *)
Definition write_start (sharedData : SharedData) (points : list MPoint) : WritePool :=
  (points, (fun k => mkTaskState (threadStartId sharedData (Z.of_nat k)) 0 None)
             <$> seq 0 (Z.to_nat (sd_numTasks sharedData))).

(** [createTasksAndExecute] with the writes of the tasks interleaved as
    [sched] says. *)
Definition region_by_writes (sched : list nat) (sharedData : SharedData)
    (points : list MPoint) : list MPoint :=
  (join_writes sharedData (run_writes sharedData sched (write_start sharedData points))).1.

(** The point at [pos] after the first [n] writes of its turn. *)
Definition turn_prefix (sharedData : SharedData) (weight : float) (n : nat)
    (pos : MPoint) : MPoint :=
  match n with
  | O => pos
  | S m =>
      let pos1 := first_write sharedData pos in
      foldl (fun pos pc => later_write sharedData (precompute sharedData weight pos1) pc pos)
            pos1 (seq 1 m)
  end.

(** The number of writes the turn at index [j] has made: none before the
    task that owns [j] gets there, five once it has moved on. *)
Definition stage (sharedData : SharedData) (st : WritePool) (j : nat) : nat :=
  match st.2 !! owner sharedData j with
  | Some ts =>
      if (Z.of_nat j <? ts_i ts)%Z then 5%nat
      else if (Z.of_nat j =? ts_i ts)%Z then ts_pc ts else 0%nat
  | None => 0%nat
  end.

(** What holds of the pool between any two writes of the region started on
    [points0]. *)
Record write_inv (sharedData : SharedData) (points0 : list MPoint) (st : WritePool)
  : Prop := mkWriteInv {
  winv_tasks : length st.2 = Z.to_nat (sd_numTasks sharedData);
  winv_length : length st.1 = length points0;
  winv_range : forall k ts, st.2 !! k = Some ts ->
    (Z.of_nat k * sd_width sharedData <= ts_i ts
     <= Z.of_nat k * sd_width sharedData + sd_width sharedData)%Z
    /\ (ts_pc ts <= 4)%nat;
  winv_turn : forall k ts, st.2 !! k = Some ts -> ts_pc ts <> 0%nat ->
    loop_test sharedData (Z.of_nat k) (ts_i ts) = true
    /\ forall p weight,
         points0 !! Z.to_nat (ts_i ts) = Some p ->
         sd_weights sharedData !! Z.to_nat (ts_i ts) = Some weight ->
         ts_locals ts = Some (precompute sharedData weight (first_write sharedData p));
  winv_points : forall j p weight,
    points0 !! j = Some p -> sd_weights sharedData !! j = Some weight ->
    st.1 !! j = Some (turn_prefix sharedData weight (stage sharedData st j) p)
}.

(** Task [k] has left its loop. *)
Definition write_finished (sharedData : SharedData) (st : WritePool) (k : nat) : Prop :=
  forall ts, st.2 !! k = Some ts ->
    ts_pc ts = 0%nat /\ loop_test sharedData (Z.of_nat k) (ts_i ts) = false.
End Writes.

Lemma bind_inputValue_Some {A B} attr (v : A) (k : A -> Read B) log :
  (inputValue attr (Some v) ≫= k) log = k v (log ++ [attr]).
Proof. reflexivity. Qed.

Lemma bind_inputValue_None {A B} attr (k : A -> Read B) log :
  (inputValue attr None ≫= k) log = (log ++ [attr], None).
Proof. reflexivity. Qed.

Ltac run_reads :=
  unfold run_deform; cbn [block db_envelope db_numTasks db_amp db_freq db_offset
    db_octaves db_lacunarity db_persistence db_locatorWorldSpace];
  repeat (rewrite bind_inputValue_Some; cbn [app]).

Section Properties.
Context `{Platform}.
Local Open Scope flt_scope.

(** ** Loops over the geometry *)

Lemma foldl_pointwise {A B} (f g : A -> B -> A) (l : list B) (a : A) :
  (forall a b, f a b = g a b) -> foldl f a l = foldl g a l.
Proof.
  intros Hfg. revert a. induction l as [|b l IH]; intros a; simpl; [done|].
  by rewrite Hfg, IH.
Qed.

Lemma foldl_alter_prefix {A} (f : nat -> A -> A) (g : list A) (m : nat) :
  (m <= length g)%nat ->
  forall j, foldl (fun g i => alter (f i) i g) g (seq 0 m) !! j
            = if decide (j < m)%nat then f j <$> g !! j else g !! j.
Proof.
  induction m as [|m IH]; intros Hm j.
  - destruct (decide (j < 0)%nat); [lia|done].
  - rewrite seq_S, foldl_app. simpl.
    destruct (decide (m = j)) as [->|Hne].
    + rewrite list_lookup_alter_eq, IH by lia.
      rewrite decide_False, decide_True by lia. done.
    + rewrite list_lookup_alter_ne by done. rewrite IH by lia.
      destruct (decide (j < m)%nat), (decide (j < S m)%nat); first [done | lia].
Qed.

Lemma foldl_alter_imap {A} (f : nat -> A -> A) (g : list A) :
  foldl (fun g i => alter (f i) i g) g (seq 0 (length g)) = imap f g.
Proof.
  apply list_eq. intros j.
  rewrite foldl_alter_prefix, list_lookup_imap by done.
  case_decide; [done|].
  by rewrite (lookup_ge_None_2 g j) by lia.
Qed.

Lemma visit_alter dataBlock multiIndex env amps freqs offsets octaves lacunarity
    persistence m1 m2 (geom : list MPoint) index :
  SkNoiseDeformer.visit dataBlock multiIndex env amps freqs offsets octaves lacunarity
    persistence m1 m2 geom index
  = alter (fun p => if EPSILON >=? weightValue dataBlock multiIndex index then p
                    else SkNoiseDeformer.displace env (weightValue dataBlock multiIndex index)
                           amps freqs offsets octaves lacunarity persistence m1 m2 p)
          index geom.
Proof.
  unfold SkNoiseDeformer.visit.
  destruct (EPSILON >=? weightValue dataBlock multiIndex index); [|done].
  by rewrite list_alter_id.
Qed.

Lemma st_deform_early a weights geom localToWorld multiIndex :
  (EPSILON >=? a_envelope a) = true ->
  SkNoiseDeformer.deform (block a weights) geom localToWorld multiIndex
  = mkOutcome _ kSuccess geom [Envelope].
Proof.
  intros Henv. unfold SkNoiseDeformer.deform. run_reads. by rewrite Henv.
Qed.

Lemma st_deform_run a weights geom localToWorld multiIndex :
  (EPSILON >=? a_envelope a) = false ->
  SkNoiseDeformer.deform (block a weights) geom localToWorld multiIndex
  = mkOutcome _ kSuccess (st_result a localToWorld (weights multiIndex) geom)
      [Envelope; Amp; Freq; Offset; Octaves; Lacunarity; Persistence; LocatorWorldSpace].
Proof.
  intros Henv. unfold SkNoiseDeformer.deform. run_reads. rewrite Henv. run_reads.
  unfold mret, Read_ret. f_equal. unfold st_result. rewrite <- foldl_alter_imap.
  apply foldl_pointwise. intros g i. by rewrite visit_alter.
Qed.

End Properties.

(** ** The ranges of the tasks *)

Lemma ceil_div_bounds (a b : Z) :
  (0 < b)%Z ->
  (b * (SkNoiseDeformerMT.ceil_div a b - 1) < a <= b * SkNoiseDeformerMT.ceil_div a b)%Z.
Proof.
  intros Hb. unfold SkNoiseDeformerMT.ceil_div.
  pose proof (Z.div_mod (a + b - 1) b ltac:(lia)).
  pose proof (Z.mod_pos_bound (a + b - 1) b Hb). nia.
Qed.

Lemma ceil_div_nonneg (a b : Z) :
  (0 <= a)%Z -> (0 < b)%Z -> (0 <= SkNoiseDeformerMT.ceil_div a b)%Z.
Proof. intros Ha Hb. pose proof (ceil_div_bounds a b Hb). nia. Qed.

Lemma range_owner (w k i : Z) :
  (k * w <= i < k * w + w)%Z -> (i / w = k)%Z.
Proof.
  intros Hi. symmetry. apply (Z.div_unique i w k (i - k * w)); lia.
Qed.

Section ParallelRegion.
Context `{Platform}.
Import SkNoiseDeformerMT.

Variable sharedData : SharedData.
Variable points0 : list MPoint.
Variable t : Z.
Hypothesis Hpacked : packed sharedData (Z.of_nat (length points0)) t.
Hypothesis Htasks : (1 <= t)%Z.
Hypothesis Hweights : length (sd_weights sharedData) = length points0.

Lemma packed_width :
  sd_width sharedData = ceil_div (Z.of_nat (length points0)) t.
Proof. destruct Hpacked as (Hs & He & _ & Hw). rewrite Hw, Hs, He. f_equal. lia. Qed.

Lemma width_nonneg : (0 <= sd_width sharedData)%Z.
Proof. rewrite packed_width. apply ceil_div_nonneg; lia. Qed.

Lemma width_covers : (Z.of_nat (length points0) <= sd_width sharedData * t)%Z.
Proof.
  rewrite packed_width.
  pose proof (ceil_div_bounds (Z.of_nat (length points0)) t ltac:(lia)). lia.
Qed.

Lemma loop_test_true (k : nat) (i : Z) :
  loop_test sharedData (Z.of_nat k) i = true ->
  (i < Z.of_nat k * sd_width sharedData + sd_width sharedData
   /\ i < Z.of_nat (length points0))%Z.
Proof.
  destruct Hpacked as (Hs & He & _ & _).
  unfold loop_test, threadEndId, threadStartId. rewrite Hs, He. lia.
Qed.

Lemma loop_test_false (k : nat) (i : Z) :
  loop_test sharedData (Z.of_nat k) i = false ->
  (Z.of_nat k * sd_width sharedData + sd_width sharedData <= i
   \/ Z.of_nat (length points0) <= i)%Z.
Proof.
  destruct Hpacked as (Hs & He & _ & _).
  unfold loop_test, threadEndId, threadStartId. rewrite Hs, He. lia.
Qed.

Lemma region_inv_init :
  region_inv sharedData points0
    (points0, (fun i => threadStartId sharedData (Z.of_nat i))
                <$> seq 0 (Z.to_nat (sd_numTasks sharedData))).
Proof.
  pose proof width_nonneg as Hw.
  destruct Hpacked as (Hs & He & Ht & _).
  assert (Hlook : forall k i,
    ((fun i => threadStartId sharedData (Z.of_nat i))
       <$> seq 0 (Z.to_nat (sd_numTasks sharedData))) !! k = Some i ->
    i = (Z.of_nat k * sd_width sharedData)%Z).
  { intros k i. rewrite list_lookup_fmap.
    destruct (seq 0 (Z.to_nat (sd_numTasks sharedData)) !! k) as [k'|] eqn:Hk; [|done].
    apply lookup_seq in Hk as [-> _]. simpl. unfold threadStartId. rewrite Hs.
    intros [= <-]. lia. }
  split; simpl.
  - by rewrite length_fmap, length_seq.
  - intros k i Hk. apply Hlook in Hk. lia.
  - done.
  - intros j p Hj. rewrite Hj. f_equal. unfold visited. simpl.
    destruct (_ !! Z.to_nat (Z.of_nat j / sd_width sharedData)) as [i|] eqn:Hi; [|done].
    apply Hlook in Hi.
    assert (i <= Z.of_nat j)%Z; [|by rewrite (proj2 (Z.ltb_ge _ _))].
    subst i. destruct (decide (sd_width sharedData = 0)) as [->|]; [lia|].
    rewrite Z2Nat.id by (apply Z.div_pos; lia).
    rewrite Z.mul_comm. apply Z.mul_div_le. lia.
Qed.

Lemma region_inv_step (st : Pool) (k : nat) :
  region_inv sharedData points0 st ->
  region_inv sharedData points0 (pool_step sharedData st k).
Proof.
  intros [Htk Hrange Hlen Hpts]. unfold pool_step.
  destruct (st.2 !! k) as [i|] eqn:Hk; [|by split].
  destruct (loop_test sharedData (Z.of_nat k) i) eqn:Htest; [|by split].
  apply loop_test_true in Htest as [Hhi Hn].
  pose proof (Hrange k i Hk) as [Hlo _].
  assert (0 < sd_width sharedData)%Z as Hw by lia.
  assert (0 <= i)%Z as Hi0 by nia.
  assert (k < length st.2)%nat as Hklen by (by eapply lookup_lt_Some).
  destruct (lookup_lt_is_Some_2 (sd_weights sharedData) (Z.to_nat i) ltac:(lia))
    as [weight Hwt].
  assert (loop_body sharedData i st.1
          = alter (displace sharedData weight) (Z.to_nat i) st.1) as ->.
  { unfold loop_body, at_index. rewrite (proj2 (Z.ltb_ge i 0)) by lia. by rewrite Hwt. }
  split; simpl.
  - by rewrite length_insert.
  - intros k' i'. rewrite list_lookup_insert by done.
    case_decide as Hkk.
    + destruct Hkk as [-> _]. intros [= <-]. lia.
    + intros Hk'. apply Hrange in Hk'. lia.
  - by rewrite length_alter.
  - intros j p Hj. specialize (Hpts j p Hj). unfold visited in *. simpl in *.
    destruct (decide (j = Z.to_nat i)) as [->|Hne].
    + rewrite Z2Nat.id in * by lia.
      rewrite (range_owner (sd_width sharedData) (Z.of_nat k) i) in * by lia.
      rewrite Nat2Z.id in *. rewrite Hk in Hpts.
      rewrite list_lookup_insert_eq by done.
      rewrite Z.ltb_irrefl in Hpts. rewrite (proj2 (Z.ltb_lt i (i + 1))) by lia.
      rewrite list_lookup_alter_eq, Hpts. simpl. unfold weighted. by rewrite Hwt.
    + rewrite list_lookup_alter_ne by done. rewrite Hpts. do 2 f_equal.
      rewrite list_lookup_insert by done.
      case_decide as Hkk; [|done].
      destruct Hkk as [<- _]. rewrite Hk.
      destruct (Z.ltb_spec (Z.of_nat j) i), (Z.ltb_spec (Z.of_nat j) (i + 1));
        first [done | lia].
Qed.
Lemma region_inv_schedule (sched : list nat) (st : Pool) :
  region_inv sharedData points0 st ->
  region_inv sharedData points0 (run_schedule sharedData sched st).
Proof.
  unfold run_schedule. revert st.
  induction sched as [|k sched IH]; intros st Hst; simpl; [done|].
  by apply IH, region_inv_step.
Qed.

Lemma region_inv_iter (m k : nat) (st : Pool) :
  region_inv sharedData points0 st ->
  region_inv sharedData points0
    (Nat.iter m (fun st => pool_step sharedData st k) st).
Proof. intros Hst. induction m as [|m IH]; simpl; [done|]. by apply region_inv_step. Qed.

Lemma region_inv_finish (k : nat) (st : Pool) :
  region_inv sharedData points0 st ->
  region_inv sharedData points0 (finish_task sharedData st k).
Proof. apply region_inv_iter. Qed.

(** A task that has left its loop stays where it is, whatever the pool does. *)
Lemma finished_step (st : Pool) (k k' : nat) :
  finished sharedData st k -> finished sharedData (pool_step sharedData st k') k.
Proof.
  intros Hfin. unfold pool_step.
  destruct (st.2 !! k') as [i'|] eqn:Hk'; [|done].
  destruct (loop_test sharedData (Z.of_nat k') i') eqn:Htest; [|done].
  intros i. simpl. destruct (decide (k' = k)) as [->|Hne].
  - rewrite (Hfin i' Hk') in Htest. done.
  - rewrite list_lookup_insert_ne by done. apply Hfin.
Qed.

Lemma finished_iter (m k k' : nat) (st : Pool) :
  finished sharedData st k ->
  finished sharedData (Nat.iter m (fun st => pool_step sharedData st k') st) k.
Proof. intros Hfin. induction m as [|m IH]; simpl; [done|]. by apply finished_step. Qed.

(** [sharedWidth] turns are enough for a task to leave its loop. *)
Lemma iter_progress (m k : nat) (st : Pool) (i : Z) :
  st.2 !! k = Some i ->
  exists i', (Nat.iter m (fun st => pool_step sharedData st k) st).2 !! k = Some i'
    /\ (loop_test sharedData (Z.of_nat k) i' = false \/ i' = (i + Z.of_nat m)%Z).
Proof.
  intros Hk. induction m as [|m (i' & Hi' & IH)]; simpl.
  - exists i. split; [done|]. right. lia.
  - unfold pool_step at 1. rewrite Hi'.
    destruct (loop_test sharedData (Z.of_nat k) i') eqn:Htest.
    + destruct IH as [?| ->]; [done|]. simpl.
      exists (i + Z.of_nat m + 1)%Z. split; [|right; lia].
      apply list_lookup_insert_eq. by eapply lookup_lt_Some.
    + exists i'. by split; [|left].
Qed.

Lemma finish_task_finished (k : nat) (st : Pool) :
  region_inv sharedData points0 st ->
  finished sharedData (finish_task sharedData st k) k.
Proof.
  intros Hst. unfold finish_task. intros i' Hi'.
  destruct (st.2 !! k) as [i|] eqn:Hk.
  - destruct (iter_progress (Z.to_nat (sd_width sharedData)) k st i Hk)
      as (i'' & Hi'' & Hdone).
    rewrite Hi' in Hi''. injection Hi'' as <-.
    destruct Hdone as [?| ->]; [done|].
    pose proof width_nonneg. pose proof (inv_range _ _ _ Hst k i Hk).
    destruct Hpacked as (Hs & _).
    unfold loop_test, threadEndId, threadStartId. rewrite Hs.
    apply andb_false_iff. left. apply Z.ltb_ge. lia.
  - apply lookup_ge_None in Hk.
    pose proof (region_inv_iter (Z.to_nat (sd_width sharedData)) k st Hst) as Hst'.
    apply lookup_lt_Some in Hi'.
    rewrite (inv_tasks _ _ _ Hst') in Hi'. rewrite (inv_tasks _ _ _ Hst) in Hk. lia.
Qed.

Lemma join_prefix (m : nat) (st : Pool) :
  region_inv sharedData points0 st ->
  region_inv sharedData points0 (foldl (finish_task sharedData) st (seq 0 m))
  /\ forall k, (k < m)%nat ->
       finished sharedData (foldl (finish_task sharedData) st (seq 0 m)) k.
Proof.
  intros Hst. induction m as [|m [Hinv Hfin]].
  - split; [done|]. intros k ?. lia.
  - rewrite seq_S, foldl_app. simpl. split.
    + by apply region_inv_finish.
    + intros k Hk. destruct (decide (k = m)) as [->|Hne].
      * by apply finish_task_finished.
      * apply finished_iter, Hfin. lia.
Qed.

(** When every task has left its loop, every point has been visited. *)
Lemma region_done (st : Pool) :
  region_inv sharedData points0 st ->
  (forall k, (k < Z.to_nat t)%nat -> finished sharedData st k) ->
  st.1 = imap (weighted sharedData) points0.
Proof.
  intros Hst Hfin. apply list_eq. intros j. rewrite list_lookup_imap.
  destruct (points0 !! j) as [p|] eqn:Hj; simpl.
  - rewrite (inv_points _ _ _ Hst j p Hj).
    assert (visited sharedData st (Z.of_nat j) = true) as ->; [|done].
    apply lookup_lt_Some in Hj.
    pose proof width_covers as Hcov. pose proof width_nonneg as Hw0.
    assert (0 < sd_width sharedData)%Z as Hw by nia.
    pose proof (Z.div_pos (Z.of_nat j) (sd_width sharedData) ltac:(lia) Hw) as Hq0.
    pose proof (Z.mul_div_le (Z.of_nat j) (sd_width sharedData) Hw) as Hq1.
    pose proof (Z.mul_succ_div_gt (Z.of_nat j) (sd_width sharedData) Hw) as Hq2.
    set (q := (Z.of_nat j / sd_width sharedData)%Z) in *.
    assert (Z.to_nat q < Z.to_nat t)%nat as Hqt by nia.
    destruct Hpacked as (_ & _ & Ht & _).
    unfold visited. fold q.
    destruct (lookup_lt_is_Some_2 st.2 (Z.to_nat q)) as [i Hi].
    { rewrite (inv_tasks _ _ _ Hst), Ht. done. }
    rewrite Hi. apply Z.ltb_lt.
    pose proof (inv_range _ _ _ Hst _ _ Hi) as [Hlo _].
    pose proof (Hfin _ Hqt i Hi) as Htest.
    apply loop_test_false in Htest. rewrite Z2Nat.id in * by lia. lia.
  - apply lookup_ge_None. rewrite (inv_length _ _ _ Hst). by apply lookup_ge_None.
Qed.

(** The parallel region computes the same array under every schedule. *)
Lemma createTasksAndExecute_weighted (sched : list nat) :
  createTasksAndExecute sched sharedData points0 = imap (weighted sharedData) points0.
Proof.
  unfold createTasksAndExecute, join.
  destruct (join_prefix (Z.to_nat (sd_numTasks sharedData))
              (run_schedule sharedData sched
                 (points0, (fun i => threadStartId sharedData (Z.of_nat i))
                             <$> seq 0 (Z.to_nat (sd_numTasks sharedData)))))
    as [Hinv Hfin].
  { apply region_inv_schedule, region_inv_init. }
  apply region_done; [done|].
  destruct Hpacked as (_ & _ & <- & _). done.
Qed.
End ParallelRegion.

Section Deformers.
Context `{Platform}.
Import SkNoiseDeformerMT.
Local Open Scope flt_scope.

(** Both loop bodies are the same function of the point. *)
Lemma displace_same (sharedData : SharedData) (weight : float) (pos : MPoint) :
  displace sharedData weight pos
  = SkNoiseDeformer.displace (sd_env sharedData) weight (sd_amps sharedData)
      (sd_freqs sharedData) (sd_offsets sharedData) (sd_octaves sharedData)
      (sd_lacunarity sharedData) (sd_persistence sharedData)
      (sd_localToLocatorSpaceMat sharedData) (sd_locatorToLocalSpaceMat sharedData) pos.
Proof. reflexivity. Qed.

Lemma mt_deform_early sched a weights geom localToWorld multiIndex :
  (EPSILON >=? a_envelope a) = true ->
  deform sched (block a weights) geom localToWorld multiIndex
  = mkOutcome _ kSuccess geom [Envelope].
Proof.
  intros Henv. unfold deform. run_reads. by rewrite Henv.
Qed.

Lemma mt_deform_run sched a weights geom localToWorld multiIndex :
  (EPSILON >=? a_envelope a) = false ->
  (1 <= a_numTasks a)%Z ->
  deform sched (block a weights) geom localToWorld multiIndex
  = mkOutcome _ kSuccess (displaced a localToWorld (weights multiIndex) geom)
      [Envelope; NumTasks; Amp; Freq; Offset; Octaves; Lacunarity; Persistence;
       LocatorWorldSpace].
Proof.
  intros Henv Ht. unfold deform. run_reads. rewrite Henv. run_reads.
  unfold mret, Read_ret. f_equal.
  rewrite (createTasksAndExecute_weighted _ geom (a_numTasks a)).
  - unfold displaced. apply imap_ext. intros j p Hj. unfold weighted. simpl.
    rewrite list_lookup_fmap, lookup_seq_lt by (by eapply lookup_lt_Some).
    simpl. apply displace_same.
  - by repeat split.
  - done.
  - simpl. by rewrite length_fmap, length_seq.
Qed.
End Deformers.

Section Ranges.
Context `{Platform}.
Import SkNoiseDeformerMT.

(** The loop visits the ids from [i] up to the smaller of [threadEndId] and
    [sharedEnd + 1]. *)
Lemma threadTask_trace_seqZ (fuel : nat) (sharedData : SharedData) (id i : Z) :
  let stop := Z.min (threadEndId sharedData id) (sd_end sharedData + 1) in
  (stop - i <= Z.of_nat fuel)%Z ->
  threadTask_trace fuel sharedData id i = seqZ i (stop - i).
Proof.
  intros stop. revert i. induction fuel as [|fuel IH]; intros i Hfuel; simpl.
  - by rewrite seqZ_nil by lia.
  - unfold loop_test. fold stop.
    destruct (Z.ltb_spec i (threadEndId sharedData id));
      destruct (Z.leb_spec i (sd_end sharedData)); simpl;
      try (rewrite seqZ_nil by lia; done).
    rewrite seqZ_cons by lia. f_equal. rewrite IH by lia. f_equal; lia.
Qed.

Lemma task_indices_seqZ (sharedData : SharedData) (n t k : Z) :
  packed sharedData n t -> (0 <= n)%Z -> (1 <= t)%Z ->
  let w := ceil_div n t in
  task_indices sharedData k = seqZ (k * w) (Z.min ((k + 1) * w) n - k * w).
Proof.
  intros (Hs & He & Ht & Hw) Hn Ht1 w.
  assert (sd_width sharedData = w) as Hw'.
  { rewrite Hw, Hs, He. unfold w. f_equal. lia. }
  pose proof (ceil_div_nonneg n t Hn ltac:(lia)) as Hw0. fold w in Hw0.
  unfold task_indices. rewrite threadTask_trace_seqZ.
  - unfold threadEndId, threadStartId. rewrite Hs, He, Hw'. f_equal; lia.
  - unfold threadEndId, threadStartId. rewrite Hs, He, Hw'. lia.
Qed.

(** Run on its own, a task applies the loop body at the ids of its trace. *)
Lemma threadTask_loop_trace (fuel : nat) (sharedData : SharedData) (id i : Z)
    (points : list MPoint) :
  threadTask_loop fuel sharedData id i points
  = foldl (fun points i => loop_body sharedData i points) points
          (threadTask_trace fuel sharedData id i).
Proof.
  revert i points. induction fuel as [|fuel IH]; intros i points; simpl; [done|].
  destruct (loop_test sharedData id i); simpl; [apply IH|done].
Qed.

(** Letting the pool finish task [k] is running [threadTask] from where the
    task stands. *)
Lemma finish_task_loop (sharedData : SharedData) (m k : nat) (st : Pool) (i : Z) :
  st.2 !! k = Some i ->
  (Nat.iter m (fun st => pool_step sharedData st k) st).1
  = threadTask_loop m sharedData (Z.of_nat k) i st.1.
Proof.
  revert st i. induction m as [|m IH]; intros st i Hk; [done|].
  rewrite Nat.iter_succ_r. simpl. unfold pool_step at 2. rewrite Hk.
  destruct (loop_test sharedData (Z.of_nat k) i) eqn:Htest.
  - rewrite (IH _ (i + 1)%Z); [done|].
    simpl. apply list_lookup_insert_eq. by eapply lookup_lt_Some.
  - rewrite (IH _ i Hk). destruct m; simpl; [done|]. by rewrite Htest.
Qed.

(** No [int] overflows while the tasks compute their ranges, as long as
    [numTasks * width] is an [int]. *)
Lemma loop_body_other (sharedData : SharedData) (i : Z) (points : list MPoint)
    (j : nat) :
  Z.of_nat j <> i -> loop_body sharedData i points !! j = points !! j.
Proof.
  intros Hne. unfold loop_body, at_index.
  destruct (Z.ltb_spec i 0); [done|].
  destruct (sd_weights sharedData !! Z.to_nat i); [|done].
  apply list_lookup_alter_ne. lia.
Qed.


(** From the state [createTasksAndExecute] sets up, letting the pool finish
    task [k] is [threadTask] with [id = k]. *)
Lemma finish_task_threadTask (sharedData : SharedData) (k : nat) (st : Pool) :
  st.2 !! k = Some (threadStartId sharedData (Z.of_nat k)) ->
  (finish_task sharedData st k).1 = threadTask sharedData (Z.of_nat k) st.1.
Proof. intros Hk. unfold finish_task, threadTask. by apply finish_task_loop. Qed.

(** No [int] overflows while the tasks compute their ranges, as long as
    [numTasks * width] is an [int]. *)
Lemma int_range (sharedData : SharedData) (n t k i : Z) :
  packed sharedData n t -> (0 <= n <= INT_MAX)%Z -> (1 <= t)%Z ->
  (t * sd_width sharedData <= INT_MAX)%Z -> (0 <= k < t)%Z ->
  (0 <= threadStartId sharedData k <= INT_MAX)%Z
  /\ (0 <= threadEndId sharedData k <= INT_MAX)%Z
  /\ (i ∈ task_indices sharedData k -> (0 <= i /\ i + 1 <= INT_MAX)%Z).
Proof.
  intros Hp Hn Ht Hmax Hk.
  pose proof (task_indices_seqZ sharedData n t k Hp ltac:(lia) Ht) as Hidx.
  destruct Hp as (Hs & He & Ht' & Hw).
  assert (sd_width sharedData = ceil_div n t) as Hw'.
  { rewrite Hw, Hs, He. f_equal. lia. }
  pose proof (ceil_div_nonneg n t ltac:(lia) ltac:(lia)) as Hw0.
  unfold threadEndId, threadStartId. rewrite Hs, Hw' in *.
  split_and!; try nia.
  simpl in Hidx. rewrite Hidx, elem_of_seqZ. intros Hi. split; nia.
Qed.
End Ranges.

(** * The claims *)

Section Claims.
Context `{Platform}.
Import SkNoiseDeformerMT.
Local Open Scope flt_scope.

Lemma st_positions a weights geom localToWorld multiIndex (j : nat) :
  positions (SkNoiseDeformer.deform (block a weights) geom localToWorld multiIndex) !! j
  = st_vertex a localToWorld (weights multiIndex j) <$> geom !! j.
Proof.
  unfold st_vertex. destruct (EPSILON >=? a_envelope a) eqn:Henv.
  - rewrite st_deform_early by done. simpl. by destruct (geom !! j).
  - rewrite st_deform_run by done. simpl. unfold st_result.
    rewrite list_lookup_imap. by destruct (geom !! j).
Qed.

Lemma mt_positions sched a weights geom localToWorld multiIndex (j : nat) :
  (1 <= a_numTasks a)%Z ->
  positions (deform sched (block a weights) geom localToWorld multiIndex) !! j
  = mt_vertex a localToWorld (weights multiIndex j) <$> geom !! j.
Proof.
  intros Ht. unfold mt_vertex. destruct (EPSILON >=? a_envelope a) eqn:Henv.
  - rewrite mt_deform_early by done. simpl. by destruct (geom !! j).
  - rewrite mt_deform_run by done. simpl. unfold displaced.
    rewrite list_lookup_imap. by destruct (geom !! j).
Qed.

Lemma st_status a weights geom localToWorld multiIndex :
  status (SkNoiseDeformer.deform (block a weights) geom localToWorld multiIndex)
  = kSuccess.
Proof.
  destruct (EPSILON >=? a_envelope a) eqn:Henv.
  - by rewrite st_deform_early.
  - by rewrite st_deform_run.
Qed.

Lemma mt_status sched a weights geom localToWorld multiIndex :
  (1 <= a_numTasks a)%Z ->
  status (deform sched (block a weights) geom localToWorld multiIndex) = kSuccess.
Proof.
  intros Ht. destruct (EPSILON >=? a_envelope a) eqn:Henv.
  - by rewrite mt_deform_early.
  - by rewrite mt_deform_run.
Qed.

(** C4.  The multi-threaded deformer leaves the same positions and status for
    every task count [t >= 1] and every schedule of the pool: what it leaves
    at a vertex is a function of that vertex, its weight and the attributes
    other than the task count. *)
Theorem task_count_invariance (a : Attrs) (weights : nat -> nat -> float)
    (geom : list MPoint) (localToWorld : MMatrix) (multiIndex : nat)
    (t1 t2 : Z) (sched1 sched2 : list nat) :
  (1 <= t1)%Z -> (1 <= t2)%Z ->
  let run t sched :=
    deform sched (block (with_numTasks t a) weights) geom localToWorld multiIndex in
  positions (run t1 sched1) = positions (run t2 sched2)
  /\ status (run t1 sched1) = status (run t2 sched2)
  /\ forall j, positions (run t1 sched1) !! j
               = mt_vertex a localToWorld (weights multiIndex j) <$> geom !! j.
Proof.
  intros Ht1 Ht2 run. unfold run. split_and!.
  - apply list_eq. intros j. by rewrite !mt_positions.
  - by rewrite !mt_status.
  - intros j. by rewrite mt_positions.
Qed.

(** C10.  When the envelope read gives a value of at most [EPSILON], both
    deformers return success with the geometry as it was, having requested no
    attribute but the envelope. *)
Theorem envelope_early_return (dataBlock : MDataBlock) (geom : list MPoint)
    (localToWorld : MMatrix) (multiIndex : nat) (sched : list nat) (env : float) :
  db_envelope dataBlock = Some env -> (EPSILON >=? env) = true ->
  SkNoiseDeformer.deform dataBlock geom localToWorld multiIndex
  = mkOutcome _ kSuccess geom [Envelope]
  /\ deform sched dataBlock geom localToWorld multiIndex
     = mkOutcome _ kSuccess geom [Envelope].
Proof.
  intros Hdb Henv. split.
  - unfold SkNoiseDeformer.deform, run_deform.
    rewrite Hdb, bind_inputValue_Some, Henv. done.
  - unfold deform, run_deform. rewrite Hdb, bind_inputValue_Some, Henv. done.
Qed.

Lemma fbm_loop_foldl (iters k : nat) (x y z persistence lacunarity sum : float) :
  fbm_loop iters x y z persistence lacunarity
    (octave_freq lacunarity k) (octave_amp persistence k) sum
  = foldl (fun sum k => f_add sum (octave_layer x y z persistence lacunarity k))
          sum (seq k iters).
Proof.
  revert k sum. induction iters as [|iters IH]; intros k sum; simpl; [done|].
  apply (IH (S k)).
Qed.

(** C8.  For [octaves >= 1], [fbm_noise3] is the sum, for [k] from [0] to
    [octaves - 1], of [noise3 (x*freq_k) (y*freq_k) (z*freq_k) * amp_k], with
    [freq_0 = amp_0 = 1], [freq_(k+1) = freq_k * lacunarity] and
    [amp_(k+1) = amp_k * persistence]; nothing is divided out; and one more
    octave adds its layer to the sum of the octaves before it. *)
Theorem fbm_noise3_sum (x y z : float) (octaves : Z) (persistence lacunarity : float) :
  (1 <= octaves)%Z ->
  fbm_noise3 x y z octaves persistence lacunarity
  = fbm_sum x y z (Z.to_nat octaves) persistence lacunarity
  /\ fbm_noise3 x y z (octaves + 1) persistence lacunarity
     = f_add (fbm_noise3 x y z octaves persistence lacunarity)
             (octave_layer x y z persistence lacunarity (Z.to_nat octaves)).
Proof.
  intros Hoct.
  assert (Hsum : forall n, fbm_noise3 x y z (Z.of_nat n) persistence lacunarity
                           = fbm_sum x y z n persistence lacunarity).
  { intros n. unfold fbm_noise3, fbm_sum. rewrite Nat2Z.id.
    apply (fbm_loop_foldl n 0). }
  split.
  - rewrite <- (Z2Nat.id octaves) at 1 by lia. apply Hsum.
  - rewrite <- (Z2Nat.id octaves) at 1 2 by lia.
    change 1%Z with (Z.of_nat 1). rewrite <- Nat2Z.inj_add, !Hsum.
    unfold fbm_sum. rewrite Nat.add_1_r, seq_S, foldl_app. done.
Qed.

Lemma mt_deform_schedule (sched sched' : list nat) (dataBlock : MDataBlock)
    (geom : list MPoint) (localToWorld : MMatrix) (multiIndex : nat) :
  (forall t, db_numTasks dataBlock = Some t -> (1 <= t)%Z) ->
  deform sched dataBlock geom localToWorld multiIndex
  = deform sched' dataBlock geom localToWorld multiIndex.
Proof.
  intros Ht.
  destruct dataBlock as [e nt am fr off oc la pe lo wv]; simpl in Ht.
  destruct e as [e|]; [|done].
  destruct (EPSILON >=? e) eqn:Henv.
  { unfold deform, run_deform. simpl. by rewrite !bind_inputValue_Some, Henv. }
  (* a read that fails ends both runs before the parallel region *)
  destruct nt as [nt|], am as [am|], fr as [fr|], off as [off|], oc as [oc|],
    la as [la|], pe as [pe|], lo as [lo|];
    try (unfold deform, run_deform; simpl; by rewrite !bind_inputValue_Some, Henv).
  change (mkDataBlock _ (Some e) (Some nt) (Some am) (Some fr) (Some off) (Some oc)
            (Some la) (Some pe) (Some lo) wv)
    with (block (mkAttrs e nt am fr off oc la pe lo) wv).
  rewrite !mt_deform_run by (simpl; auto). done.
Qed.

Section Exact.
Context `{!ExactArith}.

Lemma displace_pipeline (a : Attrs) (localToWorld : MMatrix) (weight : float)
    (p : MPoint) :
  SkNoiseDeformer.displace (a_envelope a) weight (a_amp a) (a_freq a)
    (a_offset a) (a_octaves a) (a_lacunarity a) (a_persistence a)
    (toNoiseSpace localToWorld (a_locatorWorldSpace a))
    (fromNoiseSpace localToWorld (a_locatorWorldSpace a)) p
  = pipeline a localToWorld weight p.
Proof.
  unfold SkNoiseDeformer.displace, pipeline. cbv zeta. by rewrite !f_mul_assoc.
Qed.

Lemma fbm_one_octave (x y z persistence lacunarity : float) :
  fbm_noise3 x y z 1 persistence lacunarity = noise3 x y z.
Proof.
  unfold fbm_noise3. simpl. by rewrite !f_mul_1_r, f_add_0_l.
Qed.

Lemma epsilon_below_one : (EPSILON >=? f_lit 1) = false.
Proof. unfold EPSILON. by rewrite f_leb_lit. Qed.

Lemma pipeline_unit (t : Z) (lacunarity persistence : float) :
  pipeline (mkAttrs (f_lit 1) t (mkFloat3 (f_lit 1) (f_lit 1) (f_lit 1))
              (mkFloat3 (f_lit 1) (f_lit 1) (f_lit 1))
              (mkFloat3 (f_lit 0) (f_lit 0) (f_lit 0)) 1 lacunarity persistence
              mat_identity)
    mat_identity (f_lit 1) (mkPoint (d_lit 1) (d_lit 0) (d_lit 0) (d_lit 1))
  = mkPoint (d_add (d_lit 1) (to_double (noise3 (f_lit 1) (f_lit 0) (f_lit 0))))
            (to_double (noise3 (f_lit 124) (f_lit 456) (f_lit 789)))
            (to_double (noise3 (f_lit 235) (f_lit 567) (f_lit 890))) (d_lit 1).
Proof.
  unfold pipeline, toNoiseSpace, fromNoiseSpace. cbv zeta. simpl.
  rewrite mat_inverse_identity, mat_mul_identity, !pt_mul_identity. simpl.
  rewrite !to_double_lit, !d_mul_1_l, !d_sub_0_r, !to_float_lit, !f_add_lit.
  rewrite !fbm_one_octave, !f_mul_1_l, !f_mul_1_r, !d_add_0_l. done.
Qed.

(** C1.  Under the laws of exact arithmetic, every vertex that passes the
    tests of its deformer ends at [pipeline]: into locator space by
    [localToWorld * inverse(locator)], noise coordinates
    [frequency[i] * p'[i] - offset[i]], three fBm values at the coordinates
    shifted by (0,0,0), (123,456,789) and (234,567,890), each axis moved by
    [amplitude[i] * fbm[i] * envelope * weight], and back by
    [locator * inverse(localToWorld)].  With identity matrices and unit
    attributes the vertex (1,0,0) ends at
    (1 + noise3(1,0,0), noise3(124,456,789), noise3(235,567,890)). *)
Theorem displacement_pipeline :
  (forall (a : Attrs) (weights : nat -> nat -> float) (geom : list MPoint)
          (localToWorld : MMatrix) (multiIndex : nat) (sched : list nat)
          (j : nat) (p : MPoint),
     geom !! j = Some p -> (EPSILON >=? a_envelope a) = false ->
     ((EPSILON >=? weights multiIndex j) = false ->
      positions (SkNoiseDeformer.deform (block a weights) geom localToWorld multiIndex)
        !! j = Some (pipeline a localToWorld (weights multiIndex j) p))
     /\ ((1 <= a_numTasks a)%Z ->
         positions (deform sched (block a weights) geom localToWorld multiIndex) !! j
         = Some (pipeline a localToWorld (weights multiIndex j) p)))
  /\ (forall (t : Z) (lacunarity persistence : float) (multiIndex : nat)
             (sched : list nat),
        (1 <= t)%Z ->
        let a := mkAttrs (f_lit 1) t (mkFloat3 (f_lit 1) (f_lit 1) (f_lit 1))
                   (mkFloat3 (f_lit 1) (f_lit 1) (f_lit 1))
                   (mkFloat3 (f_lit 0) (f_lit 0) (f_lit 0)) 1 lacunarity persistence
                   mat_identity in
        let geom := [mkPoint (d_lit 1) (d_lit 0) (d_lit 0) (d_lit 1)] in
        let out :=
          [mkPoint (d_add (d_lit 1) (to_double (noise3 (f_lit 1) (f_lit 0) (f_lit 0))))
                   (to_double (noise3 (f_lit 124) (f_lit 456) (f_lit 789)))
                   (to_double (noise3 (f_lit 235) (f_lit 567) (f_lit 890))) (d_lit 1)] in
        positions (SkNoiseDeformer.deform (block a (fun _ _ => f_lit 1)) geom
                     mat_identity multiIndex) = out
        /\ positions (deform sched (block a (fun _ _ => f_lit 1)) geom
                        mat_identity multiIndex) = out).
Proof.
  split.
  - intros a weights geom localToWorld multiIndex sched j p Hj Henv. split.
    + intros Hw. rewrite st_positions, Hj. simpl. unfold st_vertex.
      rewrite Henv, Hw. simpl. by rewrite displace_pipeline.
    + intros Ht. rewrite mt_positions, Hj by done. simpl. unfold mt_vertex.
      rewrite Henv. by rewrite displace_pipeline.
  - intros t lacunarity persistence multiIndex sched Ht a geom out.
    pose proof epsilon_below_one as Heps. split.
    + apply list_eq. intros [|j]; [|by rewrite st_positions].
      rewrite st_positions. simpl. unfold st_vertex.
      replace (EPSILON >=? a_envelope a) with false by done.
      rewrite Heps. simpl. f_equal.
      rewrite (displace_pipeline a). apply pipeline_unit.
    + apply list_eq. intros [|j]; [|by rewrite mt_positions].
      rewrite mt_positions by done. simpl. unfold mt_vertex.
      replace (EPSILON >=? a_envelope a) with false by done.
      f_equal. rewrite (displace_pipeline a). apply pipeline_unit.
Qed.
End Exact.

(** C2, amended.  The early exit is decided by the envelope and the weight
    each on its own, not by their product.  The single-threaded deformer
    leaves a vertex as it is when the envelope is at most [EPSILON] or the
    weight of the vertex is at most [EPSILON], and displaces it otherwise.
    The multi-threaded deformer leaves every vertex as it is when the envelope
    is at most [EPSILON], and displaces a vertex when the envelope and the
    weight of the vertex both exceed [EPSILON]. *)
Theorem early_exit_guards (a : Attrs) (weights : nat -> nat -> float)
    (geom : list MPoint) (localToWorld : MMatrix) (multiIndex : nat)
    (sched : list nat) (j : nat) (p : MPoint) :
  geom !! j = Some p -> (1 <= a_numTasks a)%Z ->
  let weight := weights multiIndex j in
  let moved :=
    SkNoiseDeformer.displace (a_envelope a) weight (a_amp a) (a_freq a) (a_offset a)
      (a_octaves a) (a_lacunarity a) (a_persistence a)
      (toNoiseSpace localToWorld (a_locatorWorldSpace a))
      (fromNoiseSpace localToWorld (a_locatorWorldSpace a)) p in
  positions (SkNoiseDeformer.deform (block a weights) geom localToWorld multiIndex) !! j
  = Some (if (EPSILON >=? a_envelope a) || (EPSILON >=? weight) then p else moved)
  /\ ((EPSILON >=? a_envelope a) = true ->
      positions (deform sched (block a weights) geom localToWorld multiIndex) = geom)
  /\ ((EPSILON >=? a_envelope a) = false -> (EPSILON >=? weight) = false ->
      positions (deform sched (block a weights) geom localToWorld multiIndex) !! j
      = Some moved).
Proof.
  intros Hj Ht weight moved. split_and!.
  - by rewrite st_positions, Hj.
  - intros Henv. by rewrite mt_deform_early.
  - intros Henv _. rewrite mt_positions, Hj by done. simpl.
    unfold mt_vertex. by rewrite Henv.
Qed.

(** C6.  In every invocation both deformers work with the two matrices
    [localToWorld * inverse(locator)] and [locator * inverse(localToWorld)],
    formed from the matrices handed to that very invocation: they are what the
    displacement of every vertex goes through whenever the envelope test lets
    the invocation displace anything. *)
Theorem frame_transforms (a : Attrs) (weights : nat -> nat -> float)
    (geom : list MPoint) (localToWorld : MMatrix) (multiIndex : nat)
    (sched : list nat) :
  (1 <= a_numTasks a)%Z ->
  let referenceWorld := a_locatorWorldSpace a in
  let kernel toNoise fromNoise j p :=
    SkNoiseDeformer.displace (a_envelope a) (weights multiIndex j) (a_amp a) (a_freq a)
      (a_offset a) (a_octaves a) (a_lacunarity a) (a_persistence a) toNoise fromNoise p in
  toNoiseSpace localToWorld referenceWorld
  = mat_mul localToWorld (mat_inverse referenceWorld)
  /\ fromNoiseSpace localToWorld referenceWorld
     = mat_mul referenceWorld (mat_inverse localToWorld)
  /\ positions (SkNoiseDeformer.deform (block a weights) geom localToWorld multiIndex)
     = (if EPSILON >=? a_envelope a then geom
        else imap (fun j p =>
                     if EPSILON >=? weights multiIndex j then p
                     else kernel (toNoiseSpace localToWorld referenceWorld)
                                 (fromNoiseSpace localToWorld referenceWorld) j p) geom)
  /\ positions (deform sched (block a weights) geom localToWorld multiIndex)
     = (if EPSILON >=? a_envelope a then geom
        else imap (kernel (toNoiseSpace localToWorld referenceWorld)
                          (fromNoiseSpace localToWorld referenceWorld)) geom).
Proof.
  intros Ht referenceWorld kernel. split_and!; [done|done| |].
  - destruct (EPSILON >=? a_envelope a) eqn:Henv.
    + by rewrite st_deform_early.
    + by rewrite st_deform_run.
  - destruct (EPSILON >=? a_envelope a) eqn:Henv.
    + by rewrite mt_deform_early.
    + by rewrite mt_deform_run.
Qed.

Lemma run_deform_failure (geom : list MPoint) (body : Read (list MPoint)) :
  status (run_deform geom body) = kFailure -> positions (run_deform geom body) = geom.
Proof. unfold run_deform. by destruct (body []) as [log [geom'|]]. Qed.

(** C7, amended.  Neither deformer tests a matrix for singularity.  Whatever
    the local-to-world and locator matrices are, with every attribute readable
    both return success, and the vertices that pass the envelope and weight
    tests are displaced with the matrices built from what [MMatrix::inverse]
    returned.  A failure status comes from an attribute read only, and then
    the positions are those of the input. *)
Theorem no_singularity_check (a : Attrs) (weights : nat -> nat -> float)
    (geom : list MPoint) (localToWorld : MMatrix) (multiIndex : nat)
    (sched : list nat) :
  (1 <= a_numTasks a)%Z ->
  status (SkNoiseDeformer.deform (block a weights) geom localToWorld multiIndex)
  = kSuccess
  /\ status (deform sched (block a weights) geom localToWorld multiIndex) = kSuccess
  /\ (forall j,
        positions (SkNoiseDeformer.deform (block a weights) geom localToWorld multiIndex)
          !! j = st_vertex a localToWorld (weights multiIndex j) <$> geom !! j)
  /\ (forall j,
        positions (deform sched (block a weights) geom localToWorld multiIndex) !! j
        = mt_vertex a localToWorld (weights multiIndex j) <$> geom !! j)
  /\ (forall dataBlock : MDataBlock,
        (status (SkNoiseDeformer.deform dataBlock geom localToWorld multiIndex)
         = kFailure ->
         positions (SkNoiseDeformer.deform dataBlock geom localToWorld multiIndex)
         = geom)
        /\ (status (deform sched dataBlock geom localToWorld multiIndex) = kFailure ->
            positions (deform sched dataBlock geom localToWorld multiIndex) = geom)).
Proof.
  intros Ht. split_and!.
  - apply st_status.
  - by apply mt_status.
  - intros j. apply st_positions.
  - intros j. by apply mt_positions.
  - intros dataBlock. split; apply run_deform_failure.
Qed.
End Claims.

(** * Further properties of the deformers *)

(** One attribute read: it succeeds and the run goes on, or it fails and the
    goal is about a run that ends there. *)
Ltac read_step o :=
  destruct o as [o|];
  [rewrite bind_inputValue_Some; simpl
  |rewrite bind_inputValue_None; simpl; split_and!; try done; eauto].

Section Lengths.
Context `{Platform}.
Import SkNoiseDeformerMT.
Local Open Scope flt_scope.

Lemma loop_body_length (sharedData : SharedData) (i : Z) (points : list MPoint) :
  length (loop_body sharedData i points) = length points.
Proof.
  unfold loop_body. destruct (at_index (sd_weights sharedData) i); [|done].
  apply length_alter.
Qed.

Lemma pool_step_length (sharedData : SharedData) (st : Pool) (k : nat) :
  length (pool_step sharedData st k).1 = length st.1.
Proof.
  unfold pool_step. destruct (st.2 !! k) as [i|]; [|done].
  destruct (loop_test sharedData (Z.of_nat k) i); [|done]. apply loop_body_length.
Qed.

Lemma createTasksAndExecute_length (sched : list nat) (sharedData : SharedData)
    (points : list MPoint) :
  length (createTasksAndExecute sched sharedData points) = length points.
Proof.
  unfold createTasksAndExecute, join, run_schedule.
  set (st0 := (points, _)). change (length points) with (length st0.1).
  generalize st0. clear st0. intros st0.
  assert (Hsched : forall l st, length (foldl (pool_step sharedData) st l).1 = length st.1).
  { induction l as [|k l IH]; intros st; simpl; [done|].
    by rewrite IH, pool_step_length. }
  assert (Hfin : forall st k, length (finish_task sharedData st k).1 = length st.1).
  { intros st k. unfold finish_task.
    induction (Z.to_nat (sd_width sharedData)) as [|m IH]; simpl; [done|].
    by rewrite pool_step_length. }
  assert (Hjoin : forall l st, length (foldl (finish_task sharedData) st l).1 = length st.1).
  { induction l as [|k l IH]; intros st; simpl; [done|]. by rewrite IH, Hfin. }
  by rewrite Hjoin, Hsched.
Qed.

Lemma visit_length dataBlock multiIndex env amps freqs offsets octaves lacunarity
    persistence m1 m2 (geom : list MPoint) (index : nat) :
  length (SkNoiseDeformer.visit dataBlock multiIndex env amps freqs offsets octaves
            lacunarity persistence m1 m2 geom index) = length geom.
Proof. rewrite visit_alter. apply length_alter. Qed.

Lemma foldl_visit_length dataBlock multiIndex env amps freqs offsets octaves lacunarity
    persistence m1 m2 (l : list nat) (geom : list MPoint) :
  length (foldl (SkNoiseDeformer.visit dataBlock multiIndex env amps freqs offsets
                   octaves lacunarity persistence m1 m2) geom l) = length geom.
Proof.
  revert geom. induction l as [|i l IH]; intros geom; simpl; [done|].
  by rewrite IH, visit_length.
Qed.

(** X1.  Whatever the data block holds, readable or not, as long as a task
    count it yields is at least 1 (the minimum [initialize] sets for the
    attribute), and whatever the schedule, each deformer returns a position
    buffer as long as the one it was given. *)
Theorem deform_keeps_length (dataBlock : MDataBlock) (geom : list MPoint)
    (localToWorld : MMatrix) (multiIndex : nat) (sched : list nat) :
  (forall t, db_numTasks dataBlock = Some t -> (1 <= t)%Z) ->
  length (positions (SkNoiseDeformer.deform dataBlock geom localToWorld multiIndex))
  = length geom
  /\ length (positions (deform sched dataBlock geom localToWorld multiIndex))
     = length geom.
Proof.
  intros _. destruct dataBlock as [e nt am fr off oc la pe lo wv].
  destruct e as [e|]; [|done].
  destruct (EPSILON >=? e) eqn:Henv.
  { split.
    - unfold SkNoiseDeformer.deform, run_deform. simpl.
      by rewrite !bind_inputValue_Some, Henv.
    - unfold deform, run_deform. simpl. by rewrite !bind_inputValue_Some, Henv. }
  split.
  - destruct am as [am|], fr as [fr|], off as [off|], oc as [oc|],
      la as [la|], pe as [pe|], lo as [lo|];
      try (unfold SkNoiseDeformer.deform, run_deform; simpl;
           by rewrite !bind_inputValue_Some, Henv).
    unfold SkNoiseDeformer.deform, run_deform. simpl.
    rewrite !bind_inputValue_Some, Henv. simpl.
    repeat (rewrite bind_inputValue_Some; simpl).
    apply foldl_visit_length.
  - destruct nt as [nt|], am as [am|], fr as [fr|], off as [off|], oc as [oc|],
      la as [la|], pe as [pe|], lo as [lo|];
      try (unfold deform, run_deform; simpl;
           by rewrite !bind_inputValue_Some, Henv).
    unfold deform, run_deform. simpl.
    rewrite !bind_inputValue_Some, Henv. simpl.
    repeat (rewrite bind_inputValue_Some; simpl).
    apply createTasksAndExecute_length.
Qed.

Lemma block_lengths (a : Attrs) (weights : nat -> nat -> float) (geom : list MPoint)
    (localToWorld : MMatrix) (multiIndex : nat) (sched : list nat) :
  (1 <= a_numTasks a)%Z ->
  length (positions (SkNoiseDeformer.deform (block a weights) geom localToWorld
                       multiIndex)) = length geom
  /\ length (positions (deform sched (block a weights) geom localToWorld multiIndex))
     = length geom.
Proof.
  intros Ht. destruct (EPSILON >=? a_envelope a) eqn:Henv.
  - by rewrite st_deform_early, mt_deform_early.
  - rewrite st_deform_run, mt_deform_run by done. simpl.
    unfold st_result, displaced. by rewrite !length_imap.
Qed.

Lemma st_reads_requested (dataBlock : MDataBlock) (geom : list MPoint)
    (localToWorld : MMatrix) (multiIndex : nat) :
  returns_early dataBlock = false ->
  reads (SkNoiseDeformer.deform dataBlock geom localToWorld multiIndex)
  = requested dataBlock st_read_order.
Proof.
  destruct dataBlock as [e nt am fr off oc la pe lo wv].
  unfold returns_early. simpl. intros Henv.
  unfold SkNoiseDeformer.deform, run_deform. simpl.
  destruct e as [e|]; [rewrite bind_inputValue_Some, Henv; simpl|done].
  destruct am as [am|]; [rewrite bind_inputValue_Some; simpl|done].
  destruct fr as [fr|]; [rewrite bind_inputValue_Some; simpl|done].
  destruct off as [off|]; [rewrite bind_inputValue_Some; simpl|done].
  destruct oc as [oc|]; [rewrite bind_inputValue_Some; simpl|done].
  destruct la as [la|]; [rewrite bind_inputValue_Some; simpl|done].
  destruct pe as [pe|]; [rewrite bind_inputValue_Some; simpl|done].
  by destruct lo as [lo|].
Qed.

(** X2.  When the single-threaded deformer does not return at the envelope
    test, it asks for its eight attributes in a fixed order, stops at the
    first one it cannot read, returns success exactly when all eight are
    readable, and on failure has requested nothing after the unreadable
    attribute and returns the positions it was given. *)
Theorem st_read_failure (dataBlock : MDataBlock) (geom : list MPoint)
    (localToWorld : MMatrix) (multiIndex : nat) :
  returns_early dataBlock = false ->
  let out := SkNoiseDeformer.deform dataBlock geom localToWorld multiIndex in
  reads out = requested dataBlock st_read_order
  /\ (status out = kSuccess <-> forallb (readable dataBlock) st_read_order = true)
  /\ (status out = kFailure ->
      positions out = geom
      /\ exists attr, list.last (reads out) = Some attr
           /\ readable dataBlock attr = false).
Proof.
  destruct dataBlock as [e nt am fr off oc la pe lo wv].
  unfold returns_early. simpl. intros Henv.
  unfold SkNoiseDeformer.deform, run_deform. simpl.
  read_step e. rewrite Henv. simpl. read_step am. read_step fr. read_step off.
  read_step oc. read_step la. read_step pe. read_step lo.
  split_and!; done.
Qed.


Lemma mt_reads_requested (dataBlock : MDataBlock) (geom : list MPoint)
    (localToWorld : MMatrix) (multiIndex : nat) (sched : list nat) :
  returns_early dataBlock = false ->
  reads (deform sched dataBlock geom localToWorld multiIndex)
  = requested dataBlock mt_read_order.
Proof.
  destruct dataBlock as [e nt am fr off oc la pe lo wv].
  unfold returns_early. simpl. intros Henv.
  unfold deform, run_deform. simpl.
  destruct e as [e|]; [rewrite bind_inputValue_Some, Henv; simpl|done].
  destruct nt as [nt|]; [rewrite bind_inputValue_Some; simpl|done].
  destruct am as [am|]; [rewrite bind_inputValue_Some; simpl|done].
  destruct fr as [fr|]; [rewrite bind_inputValue_Some; simpl|done].
  destruct off as [off|]; [rewrite bind_inputValue_Some; simpl|done].
  destruct oc as [oc|]; [rewrite bind_inputValue_Some; simpl|done].
  destruct la as [la|]; [rewrite bind_inputValue_Some; simpl|done].
  destruct pe as [pe|]; [rewrite bind_inputValue_Some; simpl|done].
  by destruct lo as [lo|].
Qed.

(** X3.  When the multi-threaded deformer does not return at the envelope
    test, it asks for the task count right after the envelope and then for the
    attributes the single-threaded deformer asks for, stops at the first one
    it cannot read, returns success exactly when all nine are readable, and on
    failure starts no task and returns the positions it was given. *)
Theorem mt_read_failure (dataBlock : MDataBlock) (geom : list MPoint)
    (localToWorld : MMatrix) (multiIndex : nat) (sched : list nat) :
  returns_early dataBlock = false ->
  let out := deform sched dataBlock geom localToWorld multiIndex in
  reads out = requested dataBlock mt_read_order
  /\ mt_read_order = Envelope :: NumTasks :: tail st_read_order
  /\ (status out = kSuccess <-> forallb (readable dataBlock) mt_read_order = true)
  /\ (status out = kFailure ->
      positions out = geom
      /\ exists attr, list.last (reads out) = Some attr
           /\ readable dataBlock attr = false).
Proof.
  destruct dataBlock as [e nt am fr off oc la pe lo wv].
  unfold returns_early. simpl. intros Henv.
  unfold deform, run_deform. simpl.
  read_step e. rewrite Henv. simpl. read_step nt. read_step am. read_step fr.
  read_step off. read_step oc. read_step la. read_step pe. read_step lo.
  split_and!; done.
Qed.

End Lengths.

Section Orders.
Context `{Platform}.
Import SkNoiseDeformerMT.
Local Open Scope flt_scope.

Lemma foldl_alter_nodup {A} (f : nat -> A -> A) (l : list nat) (g : list A) (j : nat) :
  NoDup l ->
  foldl (fun g i => alter (f i) i g) g l !! j
  = if decide (j ∈ l) then f j <$> g !! j else g !! j.
Proof.
  revert g. induction l as [|i l IH]; intros g Hnd; cbn [foldl].
  - destruct (decide (j ∈ [])) as [Hin|]; [by apply elem_of_nil in Hin|done].
  - apply list.NoDup_cons in Hnd as [Hi Hnd]. rewrite IH by done.
    destruct (decide (j ∈ l)) as [Hj|Hj].
    + rewrite decide_True by (by right).
      rewrite list_lookup_alter_ne; [done|]. by intros ->.
    + destruct (decide (j = i)) as [->|Hne].
      * rewrite decide_True by left. apply list_lookup_alter_eq.
      * rewrite decide_False by (by intros [?|?]%elem_of_cons).
        by rewrite list_lookup_alter_ne.
Qed.

(** X4.  The loop of the single-threaded deformer may visit the points in any
    order, and any duplicate-free set of them: a visited point whose weight
    exceeds [EPSILON] is displaced once, every other point keeps its position,
    and visiting all points in any order gives the positions [deform]
    returns. *)
Theorem st_visit_any_order (a : Attrs) (weights : nat -> nat -> float)
    (geom : list MPoint) (localToWorld : MMatrix) (multiIndex : nat) (l : list nat) :
  NoDup l ->
  let toNoise := toNoiseSpace localToWorld (a_locatorWorldSpace a) in
  let fromNoise := fromNoiseSpace localToWorld (a_locatorWorldSpace a) in
  let visit :=
    SkNoiseDeformer.visit (block a weights) multiIndex (a_envelope a) (a_amp a)
      (a_freq a) (a_offset a) (a_octaves a) (a_lacunarity a) (a_persistence a)
      toNoise fromNoise in
  let moved j p :=
    if EPSILON >=? weights multiIndex j then p
    else SkNoiseDeformer.displace (a_envelope a) (weights multiIndex j) (a_amp a)
           (a_freq a) (a_offset a) (a_octaves a) (a_lacunarity a) (a_persistence a)
           toNoise fromNoise p in
  (forall j, foldl visit geom l !! j
             = if decide (j ∈ l) then moved j <$> geom !! j else geom !! j)
  /\ (l ≡ₚ seq 0 (length geom) -> (EPSILON >=? a_envelope a) = false ->
      foldl visit geom l
      = positions (SkNoiseDeformer.deform (block a weights) geom localToWorld multiIndex)).
Proof.
  intros Hnd toNoise fromNoise visit moved.
  assert (Hlook : forall j, foldl visit geom l !! j
                    = if decide (j ∈ l) then moved j <$> geom !! j else geom !! j).
  { intros j. rewrite <- (foldl_alter_nodup moved l geom j Hnd). f_equal.
    apply foldl_pointwise. intros g i. unfold visit. by rewrite visit_alter. }
  split; [exact Hlook|].
  intros Hperm Henv. rewrite st_deform_run by done. simpl. unfold st_result.
  apply list_eq. intros j. rewrite Hlook, list_lookup_imap.
  destruct (decide (j ∈ l)) as [Hj|Hj]; [done|].
  rewrite lookup_ge_None_2; [done|].
  destruct (decide (j < length geom)%nat) as [Hlt|]; [|lia].
  exfalso. apply Hj. rewrite Hperm. apply elem_of_seq. lia.
Qed.

Lemma loop_body_at (sharedData : SharedData) (i : Z) (points : list MPoint) :
  (0 <= i)%Z ->
  loop_body sharedData i points !! Z.to_nat i
  = weighted sharedData (Z.to_nat i) <$> points !! Z.to_nat i.
Proof.
  intros Hi. unfold loop_body, at_index, weighted.
  rewrite (proj2 (Z.ltb_ge i 0)) by done.
  destruct (sd_weights sharedData !! Z.to_nat i).
  - apply list_lookup_alter_eq.
  - by destruct (points !! Z.to_nat i).
Qed.

Lemma foldl_loop_body_lookup (sharedData : SharedData) (l : list Z)
    (points : list MPoint) (j : nat) :
  NoDup l -> (forall i, i ∈ l -> (0 <= i)%Z) ->
  foldl (fun points i => loop_body sharedData i points) points l !! j
  = if decide (Z.of_nat j ∈ l) then weighted sharedData j <$> points !! j
    else points !! j.
Proof.
  revert points. induction l as [|i l IH]; intros points Hnd Hpos; cbn [foldl].
  - destruct (decide (Z.of_nat j ∈ [])) as [Hin|]; [by apply elem_of_nil in Hin|done].
  - apply list.NoDup_cons in Hnd as [Hi Hnd].
    rewrite IH by (done || intros; apply Hpos; by right).
    destruct (decide (Z.of_nat j ∈ l)) as [Hj|Hj].
    + rewrite decide_True by (by right).
      rewrite loop_body_other; [done|]. by intros <-.
    + destruct (decide (Z.of_nat j = i)) as [<-|Hne].
      * rewrite decide_True by left.
        rewrite <- (Nat2Z.id j) at 1 3 4. apply loop_body_at. lia.
      * rewrite decide_False by (by intros [?|?]%elem_of_cons).
        by rewrite loop_body_other.
Qed.

Section Packed.
Variable sharedData : SharedData.
Variable n : nat.
Variable t : Z.
Hypothesis Hpacked : packed sharedData (Z.of_nat n) t.
Hypothesis Htasks : (1 <= t)%Z.

Lemma task_owner (k j : nat) :
  (j < n)%nat ->
  Z.of_nat j ∈ task_indices sharedData (Z.of_nat k) <-> owner sharedData j = k.
Proof.
  intros Hj.
  pose proof (task_indices_seqZ sharedData (Z.of_nat n) t (Z.of_nat k) Hpacked
                ltac:(lia) Htasks) as Hidx. simpl in Hidx.
  pose proof (ceil_div_bounds (Z.of_nat n) t ltac:(lia)) as [_ Hcov].
  pose proof (ceil_div_nonneg (Z.of_nat n) t ltac:(lia) ltac:(lia)) as Hw0.
  assert (sd_width sharedData = ceil_div (Z.of_nat n) t) as Hw.
  { destruct Hpacked as (Hs & He & _ & ->). rewrite Hs, He. f_equal. lia. }
  assert (0 < ceil_div (Z.of_nat n) t)%Z as Hpos by nia.
  rewrite Hidx, elem_of_seqZ. unfold owner. rewrite Hw.
  pose proof (Z.div_pos (Z.of_nat j) _ ltac:(lia) Hpos).
  pose proof (Z.mul_div_le (Z.of_nat j) _ Hpos).
  pose proof (Z.mul_succ_div_gt (Z.of_nat j) _ Hpos).
  split.
  - intros Hin. apply Nat2Z.inj. rewrite Z2Nat.id by done.
    apply range_owner. nia.
  - intros <-. rewrite Z2Nat.id by done. nia.
Qed.

Lemma threadTask_lookup (k j : nat) (points : list MPoint) :
  threadTask sharedData (Z.of_nat k) points !! j
  = if decide (Z.of_nat j ∈ task_indices sharedData (Z.of_nat k))
    then weighted sharedData j <$> points !! j else points !! j.
Proof.
  pose proof (task_indices_seqZ sharedData (Z.of_nat n) t (Z.of_nat k) Hpacked
                ltac:(lia) Htasks) as Hidx. simpl in Hidx.
  pose proof (ceil_div_nonneg (Z.of_nat n) t ltac:(lia) ltac:(lia)) as Hw0.
  unfold threadTask. rewrite threadTask_loop_trace.
  change (threadTask_trace _ _ _ _) with (task_indices sharedData (Z.of_nat k)).
  apply foldl_loop_body_lookup.
  - rewrite Hidx. apply NoDup_seqZ.
  - intros i. rewrite Hidx, elem_of_seqZ. nia.
Qed.

Lemma threadTask_length (k : Z) (points : list MPoint) :
  length (threadTask sharedData k points) = length points.
Proof.
  unfold threadTask.
  generalize (Z.to_nat (sd_width sharedData)) (threadStartId sharedData k).
  intros fuel. revert points. induction fuel as [|fuel IH]; intros points i; simpl; [done|].
  destruct (loop_test sharedData k i); [|done].
  by rewrite IH, loop_body_length.
Qed.

Lemma tasks_lookup (ks : list nat) (points : list MPoint) (j : nat) (p : MPoint) :
  length points = n -> NoDup ks -> points !! j = Some p ->
  foldl (fun points k => threadTask sharedData (Z.of_nat k) points) points ks !! j
  = Some (if decide (owner sharedData j ∈ ks) then weighted sharedData j p else p).
Proof.
  revert points p. induction ks as [|k ks IH]; intros points p Hlen Hnd Hj; cbn [foldl].
  - destruct (decide (owner sharedData j ∈ [])) as [Hin|]; [by apply elem_of_nil in Hin|done].
  - apply list.NoDup_cons in Hnd as [Hk Hnd].
    assert (j < n)%nat as Hjn by (rewrite <- Hlen; by eapply lookup_lt_Some).
    pose proof (threadTask_lookup k j points) as Hstep. rewrite Hj in Hstep.
    destruct (decide (Z.of_nat j ∈ task_indices sharedData (Z.of_nat k))) as [Hin|Hin].
    + apply task_owner in Hin; [|done].
      rewrite (IH _ (weighted sharedData j p)); [|by rewrite threadTask_length|done|done].
      rewrite Hin. rewrite decide_False by done. by rewrite decide_True by left.
    + rewrite (IH _ p); [|by rewrite threadTask_length|done|done].
      assert (owner sharedData j <> k) as Hne by (by intros ?%task_owner).
      destruct (decide (owner sharedData j ∈ ks)) as [Ho|Ho].
      * by rewrite decide_True by (by right).
      * by rewrite decide_False by (by intros [?|?]%elem_of_cons).
Qed.

Lemma tasks_length (ks : list nat) (points : list MPoint) :
  length (foldl (fun points k => threadTask sharedData (Z.of_nat k) points) points ks)
  = length points.
Proof.
  revert points. induction ks as [|k ks IH]; intros points; simpl; [done|].
  by rewrite IH, threadTask_length.
Qed.
End Packed.

(** X5.  Run one after another, the tasks of any duplicate-free list of ids
    displace exactly the points in the ranges of those tasks, each once, and
    leave the other points alone; the order in which they run does not
    matter. *)
Theorem tasks_in_any_order (sharedData : SharedData) (points : list MPoint) (t : Z)
    (ks : list nat) :
  packed sharedData (Z.of_nat (length points)) t -> (1 <= t)%Z -> NoDup ks ->
  let run ks :=
    foldl (fun points k => threadTask sharedData (Z.of_nat k) points) points ks in
  (forall j p, points !! j = Some p ->
     run ks !! j
     = Some (if decide (owner sharedData j ∈ ks) then weighted sharedData j p else p))
  /\ (forall ks', ks ≡ₚ ks' -> run ks' = run ks).
Proof.
  intros Hp Ht Hnd run. split.
  - intros j p Hj. by apply (tasks_lookup sharedData (length points) t Hp Ht).
  - intros ks' Hperm. apply list_eq. intros j. unfold run.
    destruct (points !! j) as [p|] eqn:Hj.
    + rewrite !(tasks_lookup sharedData (length points) t Hp Ht _ _ j p);
        [|done|done|done|done|by rewrite <- Hperm|done].
      destruct (decide (owner sharedData j ∈ ks)) as [Ho|Ho].
      * by rewrite decide_True by (by rewrite <- Hperm).
      * by rewrite decide_False by (by rewrite <- Hperm).
    + apply lookup_ge_None in Hj.
      rewrite !lookup_ge_None_2; [done| |]; by rewrite tasks_length.
Qed.

(** X6.  Under every schedule of the pool, the parallel region leaves what
    running [threadTask] for the ids [0, ..., numTasks - 1] one after another
    leaves. *)
Theorem parallel_is_sequential (sharedData : SharedData) (points : list MPoint)
    (t : Z) (sched : list nat) :
  packed sharedData (Z.of_nat (length points)) t -> (1 <= t)%Z ->
  length (sd_weights sharedData) = length points ->
  createTasksAndExecute sched sharedData points
  = foldl (fun points k => threadTask sharedData (Z.of_nat k) points) points
          (seq 0 (Z.to_nat (sd_numTasks sharedData))).
Proof.
  intros Hp Ht Hw.
  rewrite (createTasksAndExecute_weighted sharedData points t Hp Ht Hw).
  apply list_eq. intros j. rewrite list_lookup_imap.
  destruct (points !! j) as [p|] eqn:Hj; simpl.
  - rewrite (tasks_lookup sharedData (length points) t Hp Ht _ _ j p);
      [|done|apply NoDup_seq|done].
    rewrite decide_True; [done|].
    apply lookup_lt_Some in Hj. apply elem_of_seq.
    pose proof (ceil_div_bounds (Z.of_nat (length points)) t ltac:(lia)) as [_ Hcov].
    pose proof (ceil_div_nonneg (Z.of_nat (length points)) t ltac:(lia) ltac:(lia)).
    destruct Hp as (Hs & He & Hnt & Hwd). unfold owner. rewrite Hnt, Hwd, Hs, He.
    replace (Z.of_nat (length points) - 1 - 0 + 1)%Z with (Z.of_nat (length points))
      by lia.
    assert (0 < ceil_div (Z.of_nat (length points)) t)%Z as Hpos by nia.
    pose proof (Z.div_pos (Z.of_nat j) _ ltac:(lia) Hpos).
    pose proof (Z.mul_div_le (Z.of_nat j) _ Hpos).
    split; [lia|]. simpl. apply Z2Nat.inj_lt; nia.
  - symmetry. apply lookup_ge_None. rewrite tasks_length. by apply lookup_ge_None.
Qed.
End Orders.

Section Partition.
Context `{Platform}.
Import SkNoiseDeformerMT.

End Partition.

(** ** The parallel region, write by write *)

Section WriteRegion.
Context `{Platform}.
Import SkNoiseDeformerMT.

Lemma turn_prefix_S (sharedData : SharedData) (weight : float) (m : nat) (pos : MPoint) :
  turn_prefix sharedData weight (S (S m)) pos
  = later_write sharedData (precompute sharedData weight (first_write sharedData pos))
      (S m) (turn_prefix sharedData weight (S m) pos).
Proof. unfold turn_prefix. cbv zeta. by rewrite seq_S, foldl_app. Qed.

(** The five writes of a turn, one after the other, are the loop body. *)
Lemma turn_prefix_displace (sharedData : SharedData) (weight : float) (pos : MPoint) :
  turn_prefix sharedData weight 5 pos = displace sharedData weight pos.
Proof. reflexivity. Qed.

Variable sharedData : SharedData.
Variable points0 : list MPoint.
Variable t : Z.
Hypothesis Hpacked : packed sharedData (Z.of_nat (length points0)) t.
Hypothesis Htasks : (1 <= t)%Z.
Hypothesis Hweights : length (sd_weights sharedData) = length points0.

Lemma write_inv_init : write_inv sharedData points0 (write_start sharedData points0).
Proof.
  pose proof (width_nonneg sharedData points0 t Hpacked Htasks Hweights) as Hw.
  destruct Hpacked as (Hs & He & Ht & _).
  assert (Hlook : forall k ts, (write_start sharedData points0).2 !! k = Some ts ->
    ts = mkTaskState (Z.of_nat k * sd_width sharedData) 0 None).
  { intros k ts. unfold write_start. simpl. rewrite list_lookup_fmap.
    destruct (seq 0 (Z.to_nat (sd_numTasks sharedData)) !! k) as [k'|] eqn:Hk; [|done].
    apply lookup_seq in Hk as [-> _]. simpl. unfold threadStartId. rewrite Hs.
    intros [= <-]. f_equal; lia. }
  split.
  - unfold write_start. simpl. by rewrite length_fmap, length_seq.
  - done.
  - intros k ts Hk. apply Hlook in Hk as ->. simpl. lia.
  - intros k ts Hk. apply Hlook in Hk as ->. done.
  - intros j p weight Hj _. unfold stage.
    destruct (_ !! owner sharedData j) as [ts|] eqn:Hts; [|done].
    apply Hlook in Hts as ->. simpl.
    destruct (Z.ltb_spec (Z.of_nat j) (Z.of_nat (owner sharedData j) * sd_width sharedData));
      [|by destruct (_ =? _)%Z].
    exfalso. unfold owner in *.
    destruct (decide (sd_width sharedData = 0%Z)) as [Hz|]; [rewrite Hz in *; lia|].
    rewrite Z2Nat.id in * by (apply Z.div_pos; lia).
    pose proof (Z.mul_div_le (Z.of_nat j) (sd_width sharedData) ltac:(lia)). lia.
Qed.

Lemma stage_at (st : WritePool) (k : nat) (i : Z) (pc : nat) (locals : option TurnLocals) :
  st.2 !! k = Some (mkTaskState i pc locals) ->
  (Z.of_nat k * sd_width sharedData <= i
   < Z.of_nat k * sd_width sharedData + sd_width sharedData)%Z ->
  owner sharedData (Z.to_nat i) = k /\ stage sharedData st (Z.to_nat i) = pc.
Proof.
  intros Hk Hi.
  pose proof (width_nonneg sharedData points0 t Hpacked Htasks Hweights) as Hw.
  assert (owner sharedData (Z.to_nat i) = k) as Ho.
  { unfold owner. rewrite Z2Nat.id by nia.
    rewrite (range_owner (sd_width sharedData) (Z.of_nat k) i) by lia. apply Nat2Z.id. }
  split; [done|]. unfold stage. rewrite Ho, Hk. simpl.
  rewrite Z2Nat.id by nia. by rewrite Z.ltb_irrefl, Z.eqb_refl.
Qed.

Lemma write_inv_step (st : WritePool) (k : nat) :
  write_inv sharedData points0 st ->
  write_inv sharedData points0 (write_step sharedData st k).
Proof.
  intros [Htk Hlen Hrange Hturn Hpts]. unfold write_step.
  destruct (st.2 !! k) as [[i pc locals]|] eqn:Hk; [|by split].
  cbn [ts_i ts_pc ts_locals].
  pose proof (width_nonneg sharedData points0 t Hpacked Htasks Hweights) as Hw.
  pose proof (Hrange k _ Hk) as [[Hlo Hhi] Hpc]. cbn [ts_i ts_pc] in Hlo, Hhi, Hpc.
  assert (k < length st.2)%nat as Hklen by (by eapply lookup_lt_Some).
  destruct pc as [|pc].
  - destruct (loop_test sharedData (Z.of_nat k) i) eqn:Htest; [|by split].
    pose proof Htest as Htest'.
    apply (loop_test_true sharedData points0 t Hpacked Hweights) in Htest' as [Hend Hn].
    assert (0 <= i)%Z as Hi0 by nia.
    destruct (lookup_lt_is_Some_2 (sd_weights sharedData) (Z.to_nat i) ltac:(lia))
      as [weight Hwt].
    destruct (lookup_lt_is_Some_2 points0 (Z.to_nat i) ltac:(lia)) as [p Hp].
    destruct (stage_at st k i 0 locals Hk ltac:(lia)) as [Ho Hstage].
    pose proof (Hpts _ _ _ Hp Hwt) as Hcur. rewrite Hstage in Hcur. simpl in Hcur.
    unfold at_index. rewrite (proj2 (Z.ltb_ge i 0)) by lia.
    rewrite list_lookup_alter_eq, Hcur, Hwt. simpl.
    split; simpl.
    + by rewrite length_insert.
    + by rewrite length_alter.
    + intros k' ts'. rewrite list_lookup_insert by done. case_decide as Hkk.
      * intros [= <-]. simpl. lia.
      * apply Hrange.
    + intros k' ts'. rewrite list_lookup_insert by done. case_decide as Hkk.
      * destruct Hkk as [<- _]. intros [= <-] _. simpl. split; [done|].
        intros p' weight' Hp' Hwt'. congruence.
      * apply Hturn.
    + intros j p' weight' Hj Hwj. specialize (Hpts j p' weight' Hj Hwj).
      destruct (decide (j = Z.to_nat i)) as [->|Hne].
      * assert (p' = p) as -> by congruence.
        assert (weight' = weight) as -> by congruence.
        rewrite list_lookup_alter_eq, Hcur. simpl.
        unfold stage; cbn [fst snd]. rewrite Ho, list_lookup_insert_eq by done. simpl.
        rewrite Z2Nat.id by lia. by rewrite Z.ltb_irrefl, Z.eqb_refl.
      * rewrite list_lookup_alter_ne by done. rewrite Hpts. do 2 f_equal.
        unfold stage; cbn [fst snd]. rewrite list_lookup_insert by done.
        case_decide as Hkk; [|done].
        destruct Hkk as [<- _]. rewrite Hk. simpl.
        destruct (Z.ltb_spec (Z.of_nat j) i); [done|].
        destruct (Z.eqb_spec (Z.of_nat j) i); [lia|done].
  - destruct (Hturn k _ Hk ltac:(done)) as [Htest Hloc]. cbn [ts_i ts_locals] in Htest, Hloc.
    pose proof Htest as Htest'.
    apply (loop_test_true sharedData points0 t Hpacked Hweights) in Htest' as [Hend Hn].
    assert (0 <= i)%Z as Hi0 by nia.
    destruct (lookup_lt_is_Some_2 (sd_weights sharedData) (Z.to_nat i) ltac:(lia))
      as [weight Hwt].
    destruct (lookup_lt_is_Some_2 points0 (Z.to_nat i) ltac:(lia)) as [p Hp].
    rewrite (Hloc p weight Hp Hwt) in Hk |- *.
    destruct (stage_at st k i (S pc) _ Hk ltac:(lia)) as [Ho Hstage].
    pose proof (Hpts _ _ _ Hp Hwt) as Hcur. rewrite Hstage in Hcur.
    split; simpl.
    + by rewrite length_insert.
    + by rewrite length_alter.
    + intros k' ts'. rewrite list_lookup_insert by done. case_decide as Hkk.
      * intros [= <-]. case_decide; simpl; lia.
      * apply Hrange.
    + intros k' ts'. rewrite list_lookup_insert by done. case_decide as Hkk.
      * destruct Hkk as [<- _]. intros [= <-]. case_decide; simpl; [done|].
        intros _. split; [done|]. intros p' weight' Hp' Hwt'. congruence.
      * apply Hturn.
    + intros j p' weight' Hj Hwj. specialize (Hpts j p' weight' Hj Hwj).
      destruct (decide (j = Z.to_nat i)) as [->|Hne].
      * assert (p' = p) as -> by congruence.
        assert (weight' = weight) as -> by congruence.
        rewrite list_lookup_alter_eq, Hcur. cbn [fmap option_fmap option_map].
        rewrite <- turn_prefix_S. do 2 f_equal.
        unfold stage; cbn [fst snd]. rewrite Ho, list_lookup_insert_eq by done.
        rewrite Z2Nat.id by lia. case_decide; simpl.
        -- rewrite (proj2 (Z.ltb_lt i (i + 1))) by lia. by subst pc.
        -- by rewrite Z.ltb_irrefl, Z.eqb_refl.
      * rewrite list_lookup_alter_ne by done. rewrite Hpts. do 2 f_equal.
        unfold stage; cbn [fst snd]. rewrite list_lookup_insert by done.
        case_decide as Hkk; [|done].
        destruct Hkk as [<- _]. rewrite Hk. simpl.
        case_decide; simpl.
        -- destruct (Z.ltb_spec (Z.of_nat j) i), (Z.ltb_spec (Z.of_nat j) (i + 1));
             try lia.
           destruct (Z.eqb_spec (Z.of_nat j) i); [lia|].
           by destruct (Z.eqb_spec (Z.of_nat j) (i + 1)).
        -- destruct (Z.ltb_spec (Z.of_nat j) i); [done|].
           destruct (Z.eqb_spec (Z.of_nat j) i); [lia|done].
Qed.

Lemma write_inv_schedule (sched : list nat) (st : WritePool) :
  write_inv sharedData points0 st ->
  write_inv sharedData points0 (run_writes sharedData sched st).
Proof.
  unfold run_writes. revert st.
  induction sched as [|k sched IH]; intros st Hst; simpl; [done|].
  by apply IH, write_inv_step.
Qed.

Lemma write_inv_iter (m k : nat) (st : WritePool) :
  write_inv sharedData points0 st ->
  write_inv sharedData points0 (Nat.iter m (fun st => write_step sharedData st k) st).
Proof. intros Hst. induction m as [|m IH]; simpl; [done|]. by apply write_inv_step. Qed.

(** A task that has left its loop stays where it is, whatever the pool does. *)
Lemma write_finished_step (st : WritePool) (k k' : nat) :
  write_finished sharedData st k ->
  write_finished sharedData (write_step sharedData st k') k.
Proof.
  intros Hfin. unfold write_step.
  destruct (st.2 !! k') as [[i' pc' locals']|] eqn:Hk'; [|done].
  cbn [ts_i ts_pc ts_locals].
  destruct (decide (k' = k)) as [->|Hne].
  - destruct (Hfin _ Hk') as [Hpc Htest]. cbn [ts_i ts_pc] in Hpc, Htest.
    subst pc'. by rewrite Htest.
  - destruct pc' as [|pc'].
    + destruct (loop_test sharedData (Z.of_nat k') i'); [|done].
      destruct (at_index _ i'); [|done].
      destruct (at_index (sd_weights sharedData) i'); [|done].
      intros ts. cbn [snd]. rewrite list_lookup_insert_ne by done. apply Hfin.
    + destruct locals'; [|done].
      intros ts. cbn [snd]. rewrite list_lookup_insert_ne by done. apply Hfin.
Qed.

Lemma write_finished_iter (m k k' : nat) (st : WritePool) :
  write_finished sharedData st k ->
  write_finished sharedData (Nat.iter m (fun st => write_step sharedData st k') st) k.
Proof.
  intros Hfin. induction m as [|m IH]; simpl; [done|]. by apply write_finished_step.
Qed.

(** Every step of a task that has not left its loop is a write. *)
Lemma write_progress (m k : nat) (st : WritePool) (ts : TaskState) :
  write_inv sharedData points0 st ->
  st.2 !! k = Some ts ->
  exists ts', (Nat.iter m (fun st => write_step sharedData st k) st).2 !! k = Some ts'
    /\ ((ts_pc ts' = 0%nat /\ loop_test sharedData (Z.of_nat k) (ts_i ts') = false)
        \/ (5 * ts_i ts' + Z.of_nat (ts_pc ts')
            = 5 * ts_i ts + Z.of_nat (ts_pc ts) + Z.of_nat m)%Z).
Proof.
  intros Hst Hk. induction m as [|m (ts' & Hts' & IH)].
  - exists ts. split; [done|]. right. simpl. lia.
  - pose proof (write_inv_iter m k st Hst) as Hinv.
    rewrite Nat.iter_succ.
    set (st' := Nat.iter m (fun st => write_step sharedData st k) st) in *.
    pose proof (width_nonneg sharedData points0 t Hpacked Htasks Hweights) as Hw.
    assert (k < length st'.2)%nat as Hklen by (by eapply lookup_lt_Some).
    destruct ts' as [i' pc' locals'].
    pose proof (winv_range _ _ _ Hinv k _ Hts') as [[Hlo Hhi] Hpc].
    cbn [ts_i ts_pc] in *.
    unfold write_step. rewrite Hts'. cbn [ts_i ts_pc ts_locals].
    destruct pc' as [|pc'].
    + destruct (loop_test sharedData (Z.of_nat k) i') eqn:Htest.
      * destruct IH as [[_ ?]|IH]; [congruence|].
        pose proof Htest as Htest'.
        apply (loop_test_true sharedData points0 t Hpacked Hweights) in Htest'
          as [Hend Hn].
        assert (0 <= i')%Z as Hi0 by nia.
        destruct (lookup_lt_is_Some_2 (sd_weights sharedData) (Z.to_nat i') ltac:(lia))
          as [weight Hwt].
        destruct (lookup_lt_is_Some_2 st'.1 (Z.to_nat i')) as [p Hp].
        { rewrite (winv_length _ _ _ Hinv). lia. }
        unfold at_index. rewrite (proj2 (Z.ltb_ge i' 0)) by lia.
        rewrite list_lookup_alter_eq, Hp, Hwt. cbn [fmap option_fmap option_map snd].
        eexists. split; [by apply list_lookup_insert_eq|].
        right. cbn [ts_i ts_pc]. lia.
      * exists (mkTaskState i' 0 locals'). split; [done|]. by left.
    + destruct IH as [[? _]|IH]; [done|].
      destruct (winv_turn _ _ _ Hinv k _ Hts' ltac:(done)) as [Htest Hloc].
      cbn [ts_i ts_locals] in Htest, Hloc.
      pose proof Htest as Htest'.
      apply (loop_test_true sharedData points0 t Hpacked Hweights) in Htest'
        as [Hend Hn].
      assert (0 <= i')%Z as Hi0 by nia.
      destruct (lookup_lt_is_Some_2 (sd_weights sharedData) (Z.to_nat i') ltac:(lia))
        as [weight Hwt].
      destruct (lookup_lt_is_Some_2 points0 (Z.to_nat i') ltac:(lia)) as [p Hp].
      rewrite (Hloc p weight Hp Hwt). cbn [snd].
      eexists. split; [by apply list_lookup_insert_eq|].
      right. case_decide; cbn [ts_i ts_pc]; lia.
Qed.

(** [5 * sharedWidth] writes are enough for a task to leave its loop. *)
Lemma finish_writes_finished (k : nat) (st : WritePool) :
  write_inv sharedData points0 st ->
  write_finished sharedData (finish_writes sharedData st k) k.
Proof.
  intros Hst. unfold finish_writes. intros ts' Hts'.
  pose proof (write_inv_iter (5 * Z.to_nat (sd_width sharedData)) k st Hst) as Hinv.
  pose proof (width_nonneg sharedData points0 t Hpacked Htasks Hweights) as Hw.
  destruct (st.2 !! k) as [ts|] eqn:Hk.
  - destruct (write_progress (5 * Z.to_nat (sd_width sharedData)) k st ts Hst Hk)
      as (ts'' & Hts'' & Hdone).
    rewrite Hts' in Hts''. injection Hts'' as <-.
    destruct Hdone as [?|Hsum]; [done|].
    pose proof (winv_range _ _ _ Hst k _ Hk) as [[Hlo _] _].
    pose proof (winv_range _ _ _ Hinv k _ Hts') as [[_ Hhi] Hpc].
    destruct (decide (ts_pc ts' = 0%nat)) as [Hz|Hnz].
    + split; [done|]. destruct Hpacked as (Hs & _).
      unfold loop_test, threadEndId, threadStartId. rewrite Hs.
      apply andb_false_iff. left. apply Z.ltb_ge. lia.
    + destruct (winv_turn _ _ _ Hinv k _ Hts' Hnz) as [Htest _].
      apply (loop_test_true sharedData points0 t Hpacked Hweights) in Htest
        as [Hend _]. lia.
  - apply lookup_ge_None in Hk. apply lookup_lt_Some in Hts'.
    rewrite (winv_tasks _ _ _ Hinv) in Hts'. rewrite (winv_tasks _ _ _ Hst) in Hk. lia.
Qed.

Lemma join_writes_prefix (m : nat) (st : WritePool) :
  write_inv sharedData points0 st ->
  write_inv sharedData points0 (foldl (finish_writes sharedData) st (seq 0 m))
  /\ forall k, (k < m)%nat ->
       write_finished sharedData (foldl (finish_writes sharedData) st (seq 0 m)) k.
Proof.
  intros Hst. induction m as [|m [Hinv Hfin]].
  - split; [done|]. intros k ?. lia.
  - rewrite seq_S, foldl_app. simpl. split.
    + by apply write_inv_iter.
    + intros k Hk. destruct (decide (k = m)) as [->|Hne].
      * by apply finish_writes_finished.
      * apply write_finished_iter, Hfin. lia.
Qed.

(** When every task has left its loop, every turn has made its five writes. *)
Lemma writes_done (st : WritePool) :
  write_inv sharedData points0 st ->
  (forall k, (k < Z.to_nat t)%nat -> write_finished sharedData st k) ->
  st.1 = imap (weighted sharedData) points0.
Proof.
  intros Hst Hfin. apply list_eq. intros j. rewrite list_lookup_imap.
  destruct (points0 !! j) as [p|] eqn:Hj; simpl.
  - pose proof Hj as Hjn. apply lookup_lt_Some in Hjn.
    destruct (lookup_lt_is_Some_2 (sd_weights sharedData) j ltac:(lia)) as [weight Hwt].
    rewrite (winv_points _ _ _ Hst j p weight Hj Hwt).
    unfold weighted. rewrite Hwt. rewrite <- turn_prefix_displace. do 2 f_equal.
    pose proof (width_covers sharedData points0 t Hpacked Htasks Hweights) as Hcov.
    pose proof (width_nonneg sharedData points0 t Hpacked Htasks Hweights) as Hw0.
    assert (0 < sd_width sharedData)%Z as Hw by nia.
    pose proof (Z.div_pos (Z.of_nat j) (sd_width sharedData) ltac:(lia) Hw) as Hq0.
    pose proof (Z.mul_div_le (Z.of_nat j) (sd_width sharedData) Hw) as Hq1.
    pose proof (Z.mul_succ_div_gt (Z.of_nat j) (sd_width sharedData) Hw) as Hq2.
    unfold stage, owner.
    set (q := (Z.of_nat j / sd_width sharedData)%Z) in *.
    assert (Z.to_nat q < Z.to_nat t)%nat as Hqt by nia.
    destruct Hpacked as (_ & _ & Ht & _).
    destruct (lookup_lt_is_Some_2 st.2 (Z.to_nat q)) as [ts Hts].
    { rewrite (winv_tasks _ _ _ Hst), Ht. done. }
    rewrite Hts.
    pose proof (winv_range _ _ _ Hst _ _ Hts) as [[Hlo _] _].
    destruct (Hfin _ Hqt ts Hts) as [_ Htest].
    apply (loop_test_false sharedData points0 t Hpacked Hweights) in Htest.
    rewrite Z2Nat.id in * by lia.
    rewrite (proj2 (Z.ltb_lt _ _)); [done|lia].
  - apply lookup_ge_None. rewrite (winv_length _ _ _ Hst). by apply lookup_ge_None.
Qed.

(** However the writes of the tasks interleave, the region leaves every point
    displaced once. *)
Lemma region_by_writes_weighted (sched : list nat) :
  region_by_writes sched sharedData points0 = imap (weighted sharedData) points0.
Proof.
  unfold region_by_writes, join_writes.
  destruct (join_writes_prefix (Z.to_nat (sd_numTasks sharedData))
              (run_writes sharedData sched (write_start sharedData points0)))
    as [Hinv Hfin].
  { apply write_inv_schedule, write_inv_init. }
  apply writes_done; [done|].
  destruct Hpacked as (_ & _ & <- & _). done.
Qed.

(** A turn that is over stays over. *)
Lemma stage_done_step (st : WritePool) (k j : nat) :
  write_inv sharedData points0 st ->
  stage sharedData st j = 5%nat -> stage sharedData (write_step sharedData st k) j = 5%nat.
Proof.
  intros Hst. unfold stage.
  destruct (st.2 !! owner sharedData j) as [ts|] eqn:Hts; [|done].
  pose proof (winv_range _ _ _ Hst _ _ Hts) as [_ Hpc].
  destruct (Z.ltb_spec (Z.of_nat j) (ts_i ts)) as [Hlt|];
    [|destruct (_ =? _)%Z; intros; lia].
  intros _. unfold write_step.
  destruct (st.2 !! k) as [[i pc locals]|] eqn:Hk; [|by rewrite Hts, (proj2 (Z.ltb_lt _ _))].
  assert (Hsame : match st.2 !! owner sharedData j with
                  | Some ts => if (Z.of_nat j <? ts_i ts)%Z then 5%nat
                               else if (Z.of_nat j =? ts_i ts)%Z then ts_pc ts else 0%nat
                  | None => 0%nat
                  end = 5%nat).
  { by rewrite Hts, (proj2 (Z.ltb_lt _ _)). }
  assert (k < length st.2)%nat as Hklen by (by eapply lookup_lt_Some).
  cbn [ts_i ts_pc ts_locals].
  destruct pc as [|pc].
  - destruct (loop_test sharedData (Z.of_nat k) i); [|done].
    destruct (at_index _ i); [|done].
    destruct (at_index (sd_weights sharedData) i); [|done].
    cbn [snd]. rewrite list_lookup_insert by done. case_decide as Hkk; [|done].
    destruct Hkk as [Hkk _]. rewrite <- Hkk, Hk in Hts. injection Hts as <-.
    cbn [ts_i] in *. by rewrite (proj2 (Z.ltb_lt _ _)).
  - destruct locals; [|done].
    cbn [snd]. rewrite list_lookup_insert by done. case_decide as Hkk; [|done].
    destruct Hkk as [Hkk _]. rewrite <- Hkk, Hk in Hts. injection Hts as <-.
    cbn [ts_i] in *. case_decide; cbn [ts_i]; rewrite (proj2 (Z.ltb_lt _ _)); [done|lia|done|lia].
Qed.

Lemma stage_done_schedule (sched : list nat) (st : WritePool) (j : nat) :
  write_inv sharedData points0 st ->
  stage sharedData st j = 5%nat ->
  stage sharedData (run_writes sharedData sched st) j = 5%nat.
Proof.
  unfold run_writes. revert st.
  induction sched as [|k sched IH]; intros st Hst Hj; simpl; [done|].
  apply IH; [by apply write_inv_step|by apply stage_done_step].
Qed.

Lemma stage_bound (st : WritePool) (j : nat) :
  write_inv sharedData points0 st -> (stage sharedData st j <= 5)%nat.
Proof.
  intros Hst. unfold stage.
  destruct (st.2 !! owner sharedData j) as [ts|] eqn:Hts; [|lia].
  pose proof (winv_range _ _ _ Hst _ _ Hts) as [_ Hpc].
  destruct (_ <? _)%Z; [lia|]. destruct (_ =? _)%Z; lia.
Qed.
End WriteRegion.

Section Progress.
Context `{Platform}.
Import SkNoiseDeformerMT.
Local Open Scope flt_scope.

(** X7.  At every moment of the parallel region, with the five in-place
    writes of every loop turn interleaved between the tasks in any order, a
    point holds what the first [n] writes of its own loop turn make of the
    position it came with, for an [n] from 0 to 5: its input position for
    [n = 0], its position in locator space for [n = 1], the position the
    region ends with for [n = 5].  No write of another task reaches it, and
    once its turn is over it is not written again.  When the region is joined,
    the points are those [createTasksAndExecute], which takes a loop turn as
    one step, leaves on any schedule. *)
Theorem region_never_displaces_twice (sharedData : SharedData) (points : list MPoint)
    (t : Z) (sched : list nat) (j : nat) (p : MPoint) (weight : float) :
  packed sharedData (Z.of_nat (length points)) t -> (1 <= t)%Z ->
  length (sd_weights sharedData) = length points ->
  points !! j = Some p -> sd_weights sharedData !! j = Some weight ->
  let st := run_writes sharedData sched (write_start sharedData points) in
  (stage sharedData st j <= 5)%nat
  /\ st.1 !! j = Some (turn_prefix sharedData weight (stage sharedData st j) p)
  /\ turn_prefix sharedData weight 0 p = p
  /\ turn_prefix sharedData weight 1 p = pt_mul p (sd_localToLocatorSpaceMat sharedData)
  /\ turn_prefix sharedData weight 5 p = displace sharedData weight p
  /\ (stage sharedData st j = 5%nat ->
      forall sched',
        (run_writes sharedData (sched ++ sched') (write_start sharedData points)).1 !! j
        = Some (displace sharedData weight p))
  /\ (forall sched',
        region_by_writes sched sharedData points
        = createTasksAndExecute sched' sharedData points).
Proof.
  intros Hp Ht Hw Hj Hwt st.
  assert (Hinv : forall l, write_inv sharedData points
                   (run_writes sharedData l (write_start sharedData points))).
  { intros l. apply (write_inv_schedule sharedData points t Hp Ht Hw).
    apply (write_inv_init sharedData points t Hp Ht Hw). }
  split_and!.
  - apply (stage_bound sharedData points Hw), Hinv.
  - apply (winv_points _ _ _ (Hinv sched) j p weight Hj Hwt).
  - done.
  - done.
  - done.
  - intros Hdone sched'.
    assert (run_writes sharedData (sched ++ sched') (write_start sharedData points)
            = run_writes sharedData sched' st) as Heq.
    { unfold st, run_writes. apply foldl_app. }
    pose proof (winv_points _ _ _ (Hinv (sched ++ sched')) j p weight Hj Hwt) as Hpt.
    rewrite Heq in Hpt |- *. rewrite Hpt.
    by rewrite (stage_done_schedule sharedData points t Hp Ht Hw sched' st j (Hinv sched)
                  Hdone).
  - intros sched'.
    rewrite (region_by_writes_weighted sharedData points t Hp Ht Hw).
    by rewrite (createTasksAndExecute_weighted sharedData points t Hp Ht Hw).
Qed.

(** X8.  For [n] points and [t] tasks, all of the products [id * width], the
    first and last ids of the tasks and the increments of the loop variables
    are values an [int] can hold exactly when [numTasks * width] is. *)
Theorem int_arithmetic_defined (sharedData : SharedData) (n t : Z) :
  packed sharedData n t -> (0 <= n <= INT_MAX)%Z -> (1 <= t <= INT_MAX)%Z ->
  (forall k, (0 <= k < t)%Z ->
     fits_int (k * sd_width sharedData)
     /\ fits_int (threadStartId sharedData k)
     /\ fits_int (threadEndId sharedData k)
     /\ forall i, i ∈ task_indices sharedData k -> fits_int (i + 1))
  <-> (t * sd_width sharedData <= INT_MAX)%Z.
Proof.
  intros Hp Hn Ht.
  assert (sd_width sharedData = ceil_div n t) as Hw.
  { destruct Hp as (Hs & He & _ & ->). rewrite Hs, He. f_equal. lia. }
  pose proof (ceil_div_nonneg n t ltac:(lia) ltac:(lia)) as Hw0.
  assert (sd_start sharedData = 0%Z) as Hs by apply Hp.
  unfold fits_int, INT_MIN. split.
  - intros Hall. destruct (Hall (t - 1)%Z ltac:(lia)) as (_ & _ & [_ Hend] & _).
    unfold threadEndId, threadStartId in Hend. rewrite Hs in Hend. lia.
  - intros Hmax k Hk.
    pose proof (task_indices_seqZ sharedData n t k Hp ltac:(lia) ltac:(lia)) as Hidx.
    simpl in Hidx. unfold threadEndId, threadStartId. rewrite Hs, Hw in *.
    split_and!; try nia.
    intros i. rewrite Hidx, elem_of_seqZ. unfold INT_MAX in *. nia.
Qed.

(** X9.  No task visits more than [width = ceil(n/t)] points; a task whose
    range ends within the buffer visits exactly [width]; and a task visits
    nothing exactly when its first id [k * width] is not below [n], which may
    be so for the last tasks even when there are fewer tasks than points. *)
Theorem task_load (sharedData : SharedData) (n t k : Z) :
  packed sharedData n t -> (0 <= n)%Z -> (1 <= t)%Z -> (0 <= k)%Z ->
  let w := sd_width sharedData in
  (Z.of_nat (length (task_indices sharedData k)) <= w)%Z
  /\ (((k + 1) * w <= n)%Z -> Z.of_nat (length (task_indices sharedData k)) = w)
  /\ (task_indices sharedData k = [] <-> (n <= k * w)%Z).
Proof.
  intros Hp Hn Ht Hk w.
  assert (w = ceil_div n t) as Hw.
  { unfold w. destruct Hp as (Hs & He & _ & ->). rewrite Hs, He. f_equal. lia. }
  pose proof (ceil_div_nonneg n t Hn ltac:(lia)) as Hw0.
  pose proof (ceil_div_bounds n t ltac:(lia)) as [Hlow Hcov].
  rewrite (task_indices_seqZ sharedData n t k Hp Hn Ht). simpl. rewrite <- Hw in *.
  rewrite length_seqZ. split_and!.
  - lia.
  - lia.
  - split.
    + intros Hnil. apply (f_equal length) in Hnil. rewrite length_seqZ in Hnil.
      simpl in Hnil. nia.
    + intros Hge. apply seqZ_nil. lia.
Qed.
End Progress.

Section Composition.
Context `{Platform}.
Import SkNoiseDeformerMT.
Local Open Scope flt_scope.

(** X10.  Deforming a buffer made of two parts gives the first part deformed
    followed by the second part deformed with the weights of its own indices;
    for the multi-threaded deformer this holds though the three runs cut their
    buffers into different ranges and follow different schedules. *)
Theorem deform_app (a : Attrs) (weights : nat -> nat -> float)
    (geom1 geom2 : list MPoint) (localToWorld : MMatrix) (multiIndex : nat)
    (sched sched1 sched2 : list nat) :
  (1 <= a_numTasks a)%Z ->
  positions (SkNoiseDeformer.deform (block a weights) (geom1 ++ geom2)
               localToWorld multiIndex)
  = positions (SkNoiseDeformer.deform (block a weights) geom1 localToWorld multiIndex)
    ++ positions (SkNoiseDeformer.deform (block a (shifted (length geom1) weights))
                    geom2 localToWorld multiIndex)
  /\ positions (deform sched (block a weights) (geom1 ++ geom2) localToWorld multiIndex)
     = positions (deform sched1 (block a weights) geom1 localToWorld multiIndex)
       ++ positions (deform sched2 (block a (shifted (length geom1) weights)) geom2
                       localToWorld multiIndex).
Proof.
  intros Ht. split; apply list_eq; intros j.
  - rewrite st_positions.
    destruct (decide (j < length geom1)%nat) as [Hj|Hj].
    + rewrite !lookup_app_l, st_positions;
        [done|by rewrite (proj1 (block_lengths _ _ _ _ _ [] Ht))|done].
    + rewrite !lookup_app_r, st_positions;
        [|by rewrite (proj1 (block_lengths _ _ _ _ _ [] Ht)); lia|lia].
      rewrite (proj1 (block_lengths _ _ _ _ _ [] Ht)). unfold shifted.
      by replace (length geom1 + (j - length geom1))%nat with j by lia.
  - rewrite mt_positions by done.
    destruct (decide (j < length geom1)%nat) as [Hj|Hj].
    + rewrite !lookup_app_l, mt_positions;
        [done|done|by rewrite (proj2 (block_lengths _ _ _ _ _ _ Ht))|done].
    + rewrite !lookup_app_r, mt_positions;
        [|done|by rewrite (proj2 (block_lengths _ _ _ _ _ _ Ht)); lia|lia].
      rewrite (proj2 (block_lengths _ _ _ _ _ _ Ht)). unfold shifted.
      by replace (length geom1 + (j - length geom1))%nat with j by lia.
Qed.

Lemma displace_product (env env' weight weight' : float) (amps freqs offsets : Float3)
    (octaves : Z) (lacunarity persistence : float) (m1 m2 : MMatrix) (p : MPoint) :
  f_mul env weight = f_mul env' weight' ->
  SkNoiseDeformer.displace env weight amps freqs offsets octaves lacunarity
    persistence m1 m2 p
  = SkNoiseDeformer.displace env' weight' amps freqs offsets octaves lacunarity
      persistence m1 m2 p.
Proof. intros Hprod. unfold SkNoiseDeformer.displace. cbv zeta. by rewrite Hprod. Qed.

(** X15.  Past its envelope test, the multi-threaded deformer uses envelope
    and weights through their products only: two invocations whose envelopes
    both exceed [EPSILON] and whose products of envelope and weight agree at
    every vertex return the same positions. *)
Theorem mt_depends_on_product (a : Attrs) (env' : float)
    (weights weights' : nat -> nat -> float) (geom : list MPoint)
    (localToWorld : MMatrix) (multiIndex : nat) (sched sched' : list nat) :
  (1 <= a_numTasks a)%Z ->
  (EPSILON >=? a_envelope a) = false -> (EPSILON >=? env') = false ->
  (forall j, (j < length geom)%nat ->
     f_mul (a_envelope a) (weights multiIndex j) = f_mul env' (weights' multiIndex j)) ->
  positions (deform sched (block a weights) geom localToWorld multiIndex)
  = positions (deform sched' (block (with_envelope env' a) weights') geom
                 localToWorld multiIndex).
Proof.
  intros Ht Henv Henv' Hprod. apply list_eq. intros j.
  rewrite !mt_positions by done.
  destruct (geom !! j) as [p|] eqn:Hj; [|done]. simpl. f_equal.
  unfold mt_vertex. simpl. rewrite Henv, Henv'.
  apply displace_product, Hprod. by eapply lookup_lt_Some.
Qed.

Section Null.
Context `{!NullLaws}.

Lemma displace_null (env : float) (amps freqs offsets : Float3) (octaves : Z)
    (lacunarity persistence : float) (m1 m2 : MMatrix) (p : MPoint) :
  mat_mul m1 m2 = mat_identity ->
  SkNoiseDeformer.displace env (f_lit 0) amps freqs offsets octaves lacunarity
    persistence m1 m2 p = p.
Proof.
  intros Hinv. unfold SkNoiseDeformer.displace. cbv zeta.
  rewrite !null_f_mul_0_r, null_to_double_0, !null_d_add_0_r.
  destruct (pt_mul p m1) as [x y z w] eqn:Hq. simpl. rewrite <- Hq.
  by rewrite null_pt_mul_mul, Hinv, null_pt_mul_identity.
Qed.

(** X12.  In exact arithmetic and with frame matrices that undo each other, a
    point of weight zero ends where it started in both deformers, although
    the multi-threaded one takes it through the whole displacement. *)
Theorem zero_weight_fixed (a : Attrs) (weights : nat -> nat -> float)
    (geom : list MPoint) (localToWorld : MMatrix) (multiIndex : nat)
    (sched : list nat) (j : nat) (p : MPoint) :
  (1 <= a_numTasks a)%Z ->
  mat_mul (toNoiseSpace localToWorld (a_locatorWorldSpace a))
          (fromNoiseSpace localToWorld (a_locatorWorldSpace a)) = mat_identity ->
  geom !! j = Some p -> weights multiIndex j = f_lit 0 ->
  positions (deform sched (block a weights) geom localToWorld multiIndex) !! j = Some p
  /\ positions (SkNoiseDeformer.deform (block a weights) geom localToWorld multiIndex)
       !! j = Some p.
Proof.
  intros Ht Hinv Hj Hw. split.
  - rewrite mt_positions, Hj by done. simpl. unfold mt_vertex.
    destruct (EPSILON >=? a_envelope a); [done|].
    by rewrite Hw, displace_null.
  - rewrite st_positions, Hj. simpl. unfold st_vertex.
    destruct (_ || _); [done|]. by rewrite Hw, displace_null.
Qed.
End Null.
End Composition.

(** * Node initialisation *)

(** The status of the next tested call: it succeeds and [initialize] goes on,
    or it fails and the goal is about a run that ends there. *)
Ltac use_oks ok :=
  repeat match goal with
         | Hok : ok _ = _ |- _ => rewrite Hok
         end.

Ltac init_done ok :=
  cbn; use_oks ok; cbn; use_oks ok; cbn;
  rewrite <- ?(assoc_L (++)), ?fmap_app, ?app_nil_r; cbn;
  split_and!; done.

Ltac init_call ok c := destruct (ok c) eqn:?; cbn; [|init_done ok].

Ltac init_attr ok attr :=
  init_call ok (CallCreate attr); init_call ok (CallAddAttribute attr);
  init_call ok (CallAttributeAffects attr).

Lemma noise_attributes_run (ok : InitCall -> bool) (nc : NodeClass) :
  let out := noise_attributes ok nc in
  nc_calls out.1 = nc_calls nc ++ attempted ok noise_calls
  /\ out.2 = (if forallb ok noise_calls then Some tt else None)
  /\ d_attr <$> nc_attributes out.1
     = (d_attr <$> nc_attributes nc) ++ added_by (List.filter ok (attempted ok noise_calls))
  /\ nc_affects out.1
     = nc_affects nc ++ affecting_by (List.filter ok (attempted ok noise_calls)).
Proof.
  unfold noise_attributes, mbind, Init_bind, mret, Init_ret, create, addAttribute,
    attributeAffects, called. cbn.
  destruct nc as [attrs affects calls]. cbn.
  init_attr ok Amp. init_attr ok Freq. init_attr ok Offset. init_attr ok Octaves.
  init_attr ok Lacunarity. init_attr ok Persistence. init_attr ok LocatorWorldSpace.
  init_done ok.
Qed.

Lemma attempted_all (ok : InitCall -> bool) (calls : list InitCall) :
  forallb ok calls = true ->
  attempted ok calls = calls /\ List.filter ok calls = calls.
Proof.
  induction calls as [|c calls IH]; simpl; [done|].
  intros [Hc Hall]%andb_true_iff. rewrite Hc. destruct (IH Hall) as [-> ->]. done.
Qed.


(** X13.  Each [initialize] makes its tested calls in the order of the
    source and stops at the first that fails: it returns success exactly when
    every call succeeds, and on failure the attributes it had added and the
    dependencies it had declared before the failing call stay in the node
    class; nothing is taken back. *)
Theorem initialize_stops_at_failure (ok : InitCall -> bool) :
  let outcome body calls :=
    let out := run_initialize body ok in
    nc_calls out.2 = attempted ok calls
    /\ (out.1 = kSuccess <-> forallb ok calls = true)
    /\ d_attr <$> nc_attributes out.2 = added_by (List.filter ok (nc_calls out.2))
    /\ nc_affects out.2 = affecting_by (List.filter ok (nc_calls out.2)) in
  outcome SkNoiseDeformerNode.initialize st_calls
  /\ outcome SkNoiseDeformerMTNode.initialize mt_calls.
Proof.
  cbv zeta. split.
  - unfold run_initialize, SkNoiseDeformerNode.initialize, st_calls.
    destruct (noise_attributes_run ok (mkNodeClass [] [] [])) as (Hc & Hs & Ha & Hf).
    destruct (noise_attributes ok (mkNodeClass [] [] [])) as [nc o].
    cbn [fst snd nc_calls nc_attributes nc_affects app fmap list_fmap] in Hc, Hs, Ha, Hf.
    subst o. destruct (forallb ok noise_calls); cbn [fst snd];
      rewrite Hc, Ha, Hf; split_and!; done.
  - unfold run_initialize, SkNoiseDeformerMTNode.initialize, mt_calls,
      mbind, Init_bind, create, addAttribute, called.
    cbn -[noise_attributes noise_calls].
    destruct (ok (CallCreate NumTasks)) eqn:Hcreate;
      cbn -[noise_attributes noise_calls];
      [|rewrite ?Hcreate; cbn; split_and!; done].
    destruct (ok (CallAddAttribute NumTasks)) eqn:Hadd;
      cbn -[noise_attributes noise_calls];
      [|rewrite ?Hcreate, ?Hadd; cbn; split_and!; done].
    match goal with |- context [noise_attributes ok ?nc0] =>
      destruct (noise_attributes_run ok nc0) as (Hc & Hs & Ha & Hf);
      destruct (noise_attributes ok nc0) as [nc o]
    end.
    cbn [fst snd nc_calls nc_attributes nc_affects app fmap list_fmap d_attr]
      in Hc, Hs, Ha, Hf.
    subst o. destruct (forallb ok noise_calls); cbn [fst snd];
      rewrite Hc, Ha, Hf; cbn [List.filter added_by affecting_by omap];
      rewrite Hcreate, Hadd; split_and!; done.
Qed.


Lemma initialize_success (ok : InitCall -> bool) :
  ((run_initialize SkNoiseDeformerNode.initialize ok).1 = kSuccess ->
   d_attr <$> nc_attributes (run_initialize SkNoiseDeformerNode.initialize ok).2
   = added_by st_calls
   /\ nc_affects (run_initialize SkNoiseDeformerNode.initialize ok).2
      = affecting_by st_calls)
  /\ ((run_initialize SkNoiseDeformerMTNode.initialize ok).1 = kSuccess ->
      d_attr <$> nc_attributes (run_initialize SkNoiseDeformerMTNode.initialize ok).2
      = added_by mt_calls
      /\ nc_affects (run_initialize SkNoiseDeformerMTNode.initialize ok).2
         = affecting_by mt_calls).
Proof.
  split.
  - unfold run_initialize, SkNoiseDeformerNode.initialize, st_calls.
    destruct (noise_attributes_run ok (mkNodeClass [] [] [])) as (_ & Hs & Ha & Hf).
    destruct (noise_attributes ok (mkNodeClass [] [] [])) as [nc o].
    cbn [fst snd nc_calls nc_attributes nc_affects app fmap list_fmap] in Hs, Ha, Hf.
    subst o. destruct (forallb ok noise_calls) eqn:Hall; cbn [fst snd]; [|done].
    intros _. destruct (attempted_all ok noise_calls Hall) as [Hatt Hfil].
    by rewrite Ha, Hf, Hatt, Hfil.
  - unfold run_initialize, SkNoiseDeformerMTNode.initialize, mt_calls,
      mbind, Init_bind, create, addAttribute, called.
    cbn -[noise_attributes noise_calls].
    destruct (ok (CallCreate NumTasks)); cbn -[noise_attributes noise_calls]; [|done].
    destruct (ok (CallAddAttribute NumTasks)); cbn -[noise_attributes noise_calls];
      [|done].
    match goal with |- context [noise_attributes ok ?nc0] =>
      destruct (noise_attributes_run ok nc0) as (_ & Hs & Ha & Hf);
      destruct (noise_attributes ok nc0) as [nc o]
    end.
    cbn [fst snd nc_calls nc_attributes nc_affects app fmap list_fmap d_attr]
      in Hs, Ha, Hf.
    subst o. destruct (forallb ok noise_calls) eqn:Hall; cbn [fst snd]; [|done].
    intros _. destruct (attempted_all ok noise_calls Hall) as [Hatt Hfil].
    by rewrite Ha, Hf, Hatt, Hfil.
Qed.

Section Declared.
Context `{Platform}.
Import SkNoiseDeformerMT.
Local Open Scope flt_scope.

Lemma requested_in_order (dataBlock : MDataBlock) (order : list Attr) (attr : Attr) :
  attr ∈ requested dataBlock order -> attr ∈ order.
Proof.
  induction order as [|a order IH]; simpl; [done|].
  intros [->|Hin]%elem_of_cons; [left|].
  destruct (readable dataBlock a); [right; by apply IH|by apply elem_of_nil in Hin].
Qed.

Lemma reads_in_order (dataBlock : MDataBlock) (geom : list MPoint)
    (localToWorld : MMatrix) (multiIndex : nat) (sched : list nat) (attr : Attr) :
  (attr ∈ reads (SkNoiseDeformer.deform dataBlock geom localToWorld multiIndex) ->
   attr ∈ st_read_order)
  /\ (attr ∈ reads (deform sched dataBlock geom localToWorld multiIndex) ->
      attr ∈ mt_read_order).
Proof.
  destruct (returns_early dataBlock) eqn:Hearly.
  - unfold returns_early in Hearly.
    destruct (db_envelope dataBlock) as [env|] eqn:Henv; [|done].
    unfold SkNoiseDeformer.deform, deform, run_deform.
    rewrite Henv, !bind_inputValue_Some, Hearly. simpl.
    split; intros ->%list_elem_of_singleton; left.
  - split; intros Hin.
    + apply (requested_in_order dataBlock).
      by rewrite <- (st_reads_requested dataBlock geom localToWorld multiIndex Hearly).
    + apply (requested_in_order dataBlock).
      by rewrite <- (mt_reads_requested dataBlock geom localToWorld multiIndex sched
                      Hearly).
Qed.

(** X14.  When [initialize] has succeeded, every attribute its [deform]
    requests with [inputValue] is the inherited envelope or an attribute
    [initialize] has added to the node class, and every added attribute is
    declared to affect [outputGeom] except the task count of the
    multi-threaded node: the one attribute on whose value, from 1 up, the
    positions do not depend.  The weights are not among these requests:
    [weightValue] reads them from the inherited weight list. *)
Theorem reads_are_declared (ok : InitCall -> bool) (dataBlock : MDataBlock)
    (geom : list MPoint) (localToWorld : MMatrix) (multiIndex : nat)
    (sched : list nat) :
  let st := run_initialize SkNoiseDeformerNode.initialize ok in
  let mt := run_initialize SkNoiseDeformerMTNode.initialize ok in
  (st.1 = kSuccess ->
   (forall attr,
      attr ∈ reads (SkNoiseDeformer.deform dataBlock geom localToWorld multiIndex) ->
      attr = Envelope \/ attr ∈ d_attr <$> nc_attributes st.2)
   /\ nc_affects st.2 = d_attr <$> nc_attributes st.2)
  /\ (mt.1 = kSuccess ->
      (forall attr,
         attr ∈ reads (deform sched dataBlock geom localToWorld multiIndex) ->
         attr = Envelope \/ attr ∈ d_attr <$> nc_attributes mt.2)
      /\ NumTasks :: nc_affects (mt.2) = d_attr <$> nc_attributes (mt.2)
      /\ (NumTasks ∉ nc_affects (mt.2))
      /\ forall (a : Attrs) (weights : nat -> nat -> float) (t1 t2 : Z)
                (sched1 sched2 : list nat),
           (1 <= t1)%Z -> (1 <= t2)%Z ->
           positions (deform sched1 (block (with_numTasks t1 a) weights) geom
                        localToWorld multiIndex)
           = positions (deform sched2 (block (with_numTasks t2 a) weights) geom
                          localToWorld multiIndex)).
Proof.
  intros st mt. destruct (initialize_success ok) as [Hst Hmt].
  fold st in Hst. fold mt in Hmt. split.
  - intros Hok. destruct (Hst Hok) as [-> ->]. split; [|done].
    intros attr Hin.
    apply (reads_in_order dataBlock geom localToWorld multiIndex sched) in Hin.
    apply elem_of_cons in Hin as [->|Hin]; [by left|by right].
  - intros Hok. destruct (Hmt Hok) as [-> ->]. split_and!.
    + intros attr Hin.
      apply (reads_in_order dataBlock geom localToWorld multiIndex sched) in Hin.
      apply elem_of_cons in Hin as [->|Hin]; [by left|by right].
    + done.
    + cbn. intros Hin.
      repeat (apply elem_of_cons in Hin as [Hin|Hin]; [done|]).
      by apply elem_of_nil in Hin.
    + intros a weights t1 t2 sched1 sched2 Ht1 Ht2.
      apply list_eq. intros j. by rewrite !mt_positions.
Qed.
End Declared.

(** * The claims on the reference platform *)

Import SkNoiseDeformerMT.
Import Reference.
Local Open Scope flt_scope.


Lemma task_count_invariance_witness :
  let geom := [point 1 0 0; point 0 2 1; point (1 # 2) 0 3] in
  let run t sched :=
    deform sched (block (with_numTasks t (attrs 1 16 identity)) (fun _ _ => 1%Qc))
           geom identity 0 in
  positions (run 1%Z []) = positions (run 8%Z [7; 0; 3; 0; 1; 2]%nat).
Proof.
  exact (proj1 (task_count_invariance (attrs 1 16 identity) (fun _ _ => 1%Qc)
                  [point 1 0 0; point 0 2 1; point (1 # 2) 0 3] identity 0%nat
                  1%Z 8%Z [] [7; 0; 3; 0; 1; 2]%nat ltac:(lia) ltac:(lia))).
Defined.

Lemma envelope_early_return_witness :
  SkNoiseDeformer.deform (block (attrs 0 16 identity) (fun _ _ => 1%Qc))
    [point 1 0 0] identity 0
  = mkOutcome _ kSuccess [point 1 0 0] [Envelope].
Proof.
  exact (proj1 (envelope_early_return (block (attrs 0 16 identity) (fun _ _ => 1%Qc))
                  [point 1 0 0] identity 0%nat [] (Q2Qc 0) eq_refl eq_refl)).
Defined.

Lemma fbm_noise3_sum_witness :
  fbm_noise3 (Q2Qc 1) (Q2Qc 2) (Q2Qc 3) 3 (Q2Qc (1 # 2)) (Q2Qc 2)
  = fbm_sum (Q2Qc 1) (Q2Qc 2) (Q2Qc 3) 3 (Q2Qc (1 # 2)) (Q2Qc 2).
Proof.
  exact (proj1 (fbm_noise3_sum (Q2Qc 1) (Q2Qc 2) (Q2Qc 3) 3%Z (Q2Qc (1 # 2)) (Q2Qc 2)
                  ltac:(lia))).
Defined.

(** ** The reference platform is exact *)

Lemma row_eq (p q : Row) : coords p = coords q -> p = q.
Proof.
  destruct p as [a b c d], q as [a' b' c' d']. simpl. intros [= Ha Hb Hc Hd].
  f_equal; apply Qc_is_canon; by rewrite ?Ha, ?Hb, ?Hc, ?Hd.
Qed.

Lemma mat4_eq (m m' : Mat4) :
  coords (r0 m) = coords (r0 m') -> coords (r1 m) = coords (r1 m') ->
  coords (r2 m) = coords (r2 m') -> coords (r3 m) = coords (r3 m') -> m = m'.
Proof. destruct m, m'. simpl. intros. f_equal; by apply row_eq. Qed.

Lemma positions_differ (l l' : list MPoint) : map coords l <> map coords l' -> l <> l'.
Proof. by intros Hne ->. Qed.

Lemma Q2Qc_plus (p q : Q) : Qcplus (Q2Qc p) (Q2Qc q) = Q2Qc (p + q).
Proof.
  apply Qc_is_canon. simpl. by rewrite !Qred_correct.
Qed.

Lemma Q2Qc_leb (p q : Q) : Qle_bool (Q2Qc p) (Q2Qc q) = Qle_bool p q.
Proof.
  apply eq_true_iff_eq. rewrite !Qle_bool_iff. simpl. by rewrite !Qred_correct.
Qed.

Lemma reference_exact : ExactArith.
Proof.
  split; simpl.
  - intros a b c. symmetry. apply Qcmult_assoc.
  - apply Qcmult_1_l.
  - apply Qcmult_1_r.
  - apply Qcplus_0_l.
  - apply Q2Qc_plus.
  - apply Q2Qc_leb.
  - apply Qcmult_1_l.
  - intros a. unfold Qcminus. change (Qcopp (Q2Qc 0)) with (Q2Qc 0). apply Qcplus_0_r.
  - apply Qcplus_0_l.
  - done.
  - done.
  - apply mat4_eq; by vm_compute.
  - apply mat4_eq; by vm_compute.
  - intros [a b c d]. unfold row_mul, identity.
    cbn [pt_x pt_y pt_z pt_w r0 r1 r2 r3]. f_equal; ring.
Qed.

(** ** Concrete invocations *)

Lemma displacement_pipeline_witness :
  positions (SkNoiseDeformer.deform (block (attrs 1 16 identity) (fun _ _ => 1%Qc))
               [point 1 0 0] identity 0)
  = [mkPoint (Qcplus 1%Qc (ref_noise3 (Q2Qc 1) (Q2Qc 0) (Q2Qc 0)))
             (ref_noise3 (Q2Qc 124) (Q2Qc 456) (Q2Qc 789))
             (ref_noise3 (Q2Qc 235) (Q2Qc 567) (Q2Qc 890)) 1%Qc].
Proof.
  exact (proj1 (proj2 (@displacement_pipeline _ reference_exact)
                  16%Z (Q2Qc 2) (Q2Qc (1 # 2)) 0%nat [] ltac:(lia))).
Defined.

(** C2 as stated fails.  With envelope 1/1000 and weight 1/100000 the product
    is below [EPSILON], yet both deformers move the vertex; with envelope 2 and
    weight 1/10000000 the product is not below [EPSILON], yet the
    single-threaded deformer leaves the vertex where it was. *)
Lemma early_exit_not_by_product :
  let geom := [point 1 0 0] in
  let small := block (attrs (1 # 1000) 1 identity) (fun _ _ => Q2Qc (1 # 100000)) in
  let large := block (attrs 2 1 identity) (fun _ _ => Q2Qc (1 # 10000000)) in
  (f_mul (Q2Qc (1 # 1000)) (Q2Qc (1 # 100000)) <? EPSILON) = true
  /\ positions (SkNoiseDeformer.deform small geom identity 0) <> geom
  /\ positions (deform [] small geom identity 0) <> geom
  /\ (f_mul (Q2Qc 2) (Q2Qc (1 # 10000000)) <? EPSILON) = false
  /\ positions (SkNoiseDeformer.deform large geom identity 0) = geom.
Proof.
  split_and!.
  - by vm_compute.
  - apply positions_differ. by vm_compute.
  - apply positions_differ. by vm_compute.
  - by vm_compute.
  - by vm_compute.
Qed.

Lemma early_exit_guards_witness :
  let dataBlock :=
    block (attrs (1 # 1000) 1 identity) (fun _ _ => Q2Qc (1 # 100000)) in
  let moved :=
    SkNoiseDeformer.displace (Q2Qc (1 # 1000)) (Q2Qc (1 # 100000))
      (vec3 1 1 1) (vec3 1 1 1) (vec3 0 0 0) 1 (Q2Qc 2) (Q2Qc (1 # 2))
      (toNoiseSpace identity identity) (fromNoiseSpace identity identity)
      (point 1 0 0) in
  positions (SkNoiseDeformer.deform dataBlock [point 1 0 0] identity 0) !! 0%nat
  = Some moved
  /\ positions (deform [] dataBlock [point 1 0 0] identity 0) !! 0%nat = Some moved.
Proof.
  pose proof (early_exit_guards (attrs (1 # 1000) 1 identity)
                (fun _ _ => Q2Qc (1 # 100000)) [point 1 0 0] identity 0%nat []
                0%nat (point 1 0 0) eq_refl ltac:(simpl; lia)) as (Hst & _ & Hmt).
  split; [exact Hst | exact (Hmt eq_refl eq_refl)].
Defined.

(** C5.  One vertex of weight 1/20000000 under envelope 1, on a deformer
    that covers the whole mesh: the single-threaded deformer meets its test
    [if (EPSILON >= weight) continue;] and returns the position it was given;
    the multi-threaded deformer, run with one task, has no such test in
    [threadTask] and returns another position.  Both return success. *)
Lemma single_thread_differs :
  let dataBlock := block (attrs 1 1 identity) (fun _ _ => Q2Qc (1 # 20000000)) in
  let geom := [point 1 0 0] in
  let st := SkNoiseDeformer.deform dataBlock geom identity 0 in
  let mt := deform [] dataBlock geom identity 0 in
  (EPSILON >=? weightValue dataBlock 0 0) = true
  /\ status st = kSuccess /\ status mt = kSuccess
  /\ positions st = geom
  /\ positions mt <> geom
  /\ positions st <> positions mt.
Proof.
  split_and!; try (apply positions_differ); by vm_compute.
Qed.

Lemma frame_transforms_witness :
  positions (deform [] (block (attrs 1 2 flatten_z) (fun _ _ => 1%Qc))
               [point 1 0 0] identity 0)
  = imap (fun (j : nat) (p : MPoint) =>
            SkNoiseDeformer.displace 1%Qc 1%Qc (vec3 1 1 1) (vec3 1 1 1) (vec3 0 0 0) 1
              (Q2Qc 2) (Q2Qc (1 # 2)) (toNoiseSpace identity flatten_z)
              (fromNoiseSpace identity flatten_z) p) [point 1 0 0].
Proof.
  exact (proj2 (proj2 (proj2 (frame_transforms (attrs 1 2 flatten_z) (fun _ _ => 1%Qc)
           [point 1 0 0] identity 0%nat [] ltac:(simpl; lia))))).
Defined.

(** C7 as stated fails.  [flatten_z] has determinant zero; given as the
    locator matrix, or as the local-to-world matrix, both deformers return
    success and write positions other than the ones they were given. *)
Lemma singular_matrix_accepted :
  let geom := [point 1 2 3] in
  let weights := fun _ _ : nat => 1%Qc in
  let st_locator :=
    SkNoiseDeformer.deform (block (attrs 1 1 flatten_z) weights) geom identity 0 in
  let mt_locator := deform [] (block (attrs 1 1 flatten_z) weights) geom identity 0 in
  let st_local :=
    SkNoiseDeformer.deform (block (attrs 1 1 identity) weights) geom flatten_z 0 in
  let mt_local := deform [] (block (attrs 1 1 identity) weights) geom flatten_z 0 in
  det4x4 flatten_z = 0%Qc
  /\ (status st_locator = kSuccess /\ positions st_locator <> geom)
  /\ (status mt_locator = kSuccess /\ positions mt_locator <> geom)
  /\ (status st_local = kSuccess /\ positions st_local <> geom)
  /\ (status mt_local = kSuccess /\ positions mt_local <> geom).
Proof.
  split_and!; try (apply positions_differ); by vm_compute.
Qed.

Lemma no_singularity_check_witness :
  status (SkNoiseDeformer.deform (block (attrs 1 1 flatten_z) (fun _ _ => 1%Qc))
            [point 1 2 3] identity 0) = kSuccess.
Proof.
  exact (proj1 (no_singularity_check (attrs 1 1 flatten_z) (fun _ _ => 1%Qc)
                  [point 1 2 3] identity 0%nat [] ltac:(simpl; lia))).
Defined.

(** * Further properties on the reference platform *)

Lemma reference_null : NullLaws.
Proof.
  split; simpl.
  - apply Qcmult_0_r.
  - done.
  - apply Qcplus_0_r.
  - intros [x y z w] [[a0 a1 a2 a3] [b0 b1 b2 b3] [c0 c1 c2 c3] [d0 d1 d2 d3]]
      [[e0 e1 e2 e3] [f0 f1 f2 f3] [g0 g1 g2 g3] [h0 h1 h2 h3]].
    unfold mul, row_mul. cbn [pt_x pt_y pt_z pt_w r0 r1 r2 r3]. f_equal; ring.
  - intros [a b c d]. unfold row_mul, identity.
    cbn [pt_x pt_y pt_z pt_w r0 r1 r2 r3]. f_equal; ring.
Qed.

(** A data block whose amplitude cannot be read, with a task count of 16. *)
Lemma deform_keeps_length_witness :
  let dataBlock :=
    mkDataBlock _ (Some 1%Qc) (Some 16%Z) None (Some (vec3 1 1 1)) (Some (vec3 0 0 0))
      (Some 1%Z) (Some (Q2Qc 2)) (Some (Q2Qc (1 # 2))) (Some identity)
      (fun _ _ => 1%Qc) in
  length (positions (deform [3; 0]%nat dataBlock [point 1 0 0; point 0 2 1] identity 0))
  = 2%nat.
Proof.
  refine (proj2 (deform_keeps_length
    (mkDataBlock _ (Some 1%Qc) (Some 16%Z) None (Some (vec3 1 1 1)) (Some (vec3 0 0 0))
       (Some 1%Z) (Some (Q2Qc 2)) (Some (Q2Qc (1 # 2))) (Some identity)
       (fun _ _ => 1%Qc)) [point 1 0 0; point 0 2 1] identity 0%nat [3; 0]%nat _)).
  intros t [= <-]. lia.
Defined.

(** A data block whose frequency cannot be read. *)
Lemma st_read_failure_witness :
  let dataBlock :=
    mkDataBlock _ (Some 1%Qc) (Some 16%Z) (Some (vec3 1 1 1)) None (Some (vec3 0 0 0))
      (Some 1%Z) (Some (Q2Qc 2)) (Some (Q2Qc (1 # 2))) (Some identity)
      (fun _ _ => 1%Qc) in
  reads (SkNoiseDeformer.deform dataBlock [point 1 0 0] identity 0)
  = [Envelope; Amp; Freq].
Proof.
  exact (proj1 (st_read_failure
    (mkDataBlock _ (Some 1%Qc) (Some 16%Z) (Some (vec3 1 1 1)) None (Some (vec3 0 0 0))
       (Some 1%Z) (Some (Q2Qc 2)) (Some (Q2Qc (1 # 2))) (Some identity)
       (fun _ _ => 1%Qc)) [point 1 0 0] identity 0%nat eq_refl)).
Defined.

(** A data block whose task count cannot be read. *)
Lemma mt_read_failure_witness :
  let dataBlock :=
    mkDataBlock _ (Some 1%Qc) None (Some (vec3 1 1 1)) (Some (vec3 1 1 1))
      (Some (vec3 0 0 0)) (Some 1%Z) (Some (Q2Qc 2)) (Some (Q2Qc (1 # 2)))
      (Some identity) (fun _ _ => 1%Qc) in
  reads (deform [] dataBlock [point 1 0 0] identity 0) = [Envelope; NumTasks].
Proof.
  exact (proj1 (mt_read_failure
    (mkDataBlock _ (Some 1%Qc) None (Some (vec3 1 1 1)) (Some (vec3 1 1 1))
       (Some (vec3 0 0 0)) (Some 1%Z) (Some (Q2Qc 2)) (Some (Q2Qc (1 # 2)))
       (Some identity) (fun _ _ => 1%Qc)) [point 1 0 0] identity 0%nat [] eq_refl)).
Defined.

Lemma st_visit_any_order_witness :
  let a := attrs 1 16 identity in
  foldl (SkNoiseDeformer.visit (block a (fun _ _ => 1%Qc)) 0 (a_envelope a) (a_amp a)
           (a_freq a) (a_offset a) (a_octaves a) (a_lacunarity a) (a_persistence a)
           (toNoiseSpace identity identity) (fromNoiseSpace identity identity))
        [point 1 0 0; point 0 2 1] [1; 0]%nat
  = positions (SkNoiseDeformer.deform (block a (fun _ _ => 1%Qc))
                 [point 1 0 0; point 0 2 1] identity 0).
Proof.
  refine (proj2 (st_visit_any_order (attrs 1 16 identity) (fun _ _ => 1%Qc)
                   [point 1 0 0; point 0 2 1] identity 0%nat [1; 0]%nat _) _ eq_refl).
  - exact (bool_decide_unpack (NoDup [1; 0]%nat) I).
  - apply Permutation_swap.
Defined.

Lemma tasks_in_any_order_witness :
  let points := replicate 5 (point 1 0 0) in
  foldl (fun points k => threadTask (shared 5 2) (Z.of_nat k) points) points [0; 1]%nat
  = foldl (fun points k => threadTask (shared 5 2) (Z.of_nat k) points) points [1; 0]%nat.
Proof.
  refine (proj2 (tasks_in_any_order (shared 5 2) (replicate 5 (point 1 0 0)) 2
                   [1; 0]%nat _ _ _) [0; 1]%nat _).
  - by repeat split.
  - lia.
  - exact (bool_decide_unpack (NoDup [1; 0]%nat) I).
  - apply Permutation_swap.
Defined.

Lemma parallel_is_sequential_witness :
  let points := replicate 5 (point 1 0 0) in
  createTasksAndExecute [1; 0; 0; 1]%nat (shared 5 2) points
  = threadTask (shared 5 2) 1 (threadTask (shared 5 2) 0 points).
Proof.
  refine (parallel_is_sequential (shared 5 2) (replicate 5 (point 1 0 0)) 2
            [1; 0; 0; 1]%nat _ _ _).
  - by repeat split.
  - lia.
  - reflexivity.
Defined.

(** Two tasks on five points: after two writes of task 0 and three of task 1,
    point 0 has had two of its five writes and point 3 has had three. *)
Lemma region_never_displaces_twice_witness :
  let points := replicate 5 (point 1 0 0) in
  let st := run_writes (shared 5 2) [1; 0; 0; 1; 1]%nat (write_start (shared 5 2) points) in
  st.1 !! 0%nat = Some (turn_prefix (shared 5 2) 1%Qc 2 (point 1 0 0))
  /\ region_by_writes [1; 0; 0; 1; 1]%nat (shared 5 2) points
     = createTasksAndExecute [0; 1]%nat (shared 5 2) points.
Proof.
  pose proof (region_never_displaces_twice (shared 5 2) (replicate 5 (point 1 0 0)) 2
                [1; 0; 0; 1; 1]%nat 0%nat (point 1 0 0) 1%Qc
                ltac:(by repeat split) ltac:(lia) eq_refl eq_refl eq_refl)
    as (_ & Hpt & _ & _ & _ & _ & Hjoin).
  split; [exact Hpt | exact (Hjoin [0; 1]%nat)].
Defined.

Lemma int_arithmetic_defined_witness :
  fits_int (threadEndId (shared 100 16) 15).
Proof.
  refine (proj1 (proj2 (proj2 (proj2 (int_arithmetic_defined (shared 100 16) 100 16
            _ _ _) _ 15%Z _)))).
  - by repeat split.
  - unfold INT_MAX. lia.
  - unfold INT_MAX. lia.
  - by vm_compute.
  - lia.
Defined.

(** Of 16 tasks on 100 points the last one has nothing to do. *)
Lemma task_load_witness : task_indices (shared 100 16) 15 = [].
Proof.
  refine (proj2 (proj2 (proj2 (task_load (shared 100 16) 100 16 15 _ _ _ _))) _).
  - by repeat split.
  - lia.
  - lia.
  - lia.
  - by vm_compute.
Defined.

Lemma deform_app_witness :
  let a := attrs 1 2 identity in
  let weights := fun (_ j : nat) => Q2Qc (inject_Z (Z.of_nat j)) in
  positions (deform [1; 0]%nat (block a weights)
               ([point 1 0 0; point 0 2 1] ++ [point 3 0 1]) identity 0)
  = positions (deform [] (block a weights) [point 1 0 0; point 0 2 1] identity 0)
    ++ positions (deform [0]%nat (block a (shifted 2 weights)) [point 3 0 1] identity 0).
Proof.
  exact (proj2 (deform_app (attrs 1 2 identity)
                  (fun (_ j : nat) => Q2Qc (inject_Z (Z.of_nat j)))
                  [point 1 0 0; point 0 2 1] [point 3 0 1] identity 0%nat
                  [1; 0]%nat [] [0]%nat ltac:(simpl; lia))).
Defined.

Lemma zero_weight_fixed_witness :
  positions (deform [] (block (attrs 1 2 ref_frame) (fun _ _ => Q2Qc 0))
               [point 1 2 3] identity 0) !! 0%nat
  = Some (point 1 2 3).
Proof.
  refine (proj1 (@zero_weight_fixed _ reference_null (attrs 1 2 ref_frame)
                   (fun _ _ => Q2Qc 0) [point 1 2 3] identity 0%nat [] 0%nat
                   (point 1 2 3) _ _ eq_refl eq_refl)).
  - simpl. lia.
  - apply mat4_eq; by vm_compute.
Defined.

Lemma reads_are_declared_witness :
  NumTasks ∉ nc_affects (run_initialize SkNoiseDeformerMTNode.initialize (fun _ => true)).2.
Proof.
  exact (proj1 (proj2 (proj2 (proj2 (reads_are_declared (fun _ => true)
           (block (attrs 1 2 identity) (fun _ _ => 1%Qc)) [point 1 0 0] identity
           0%nat []) eq_refl)))).
Defined.

Lemma mt_depends_on_product_witness :
  positions (deform [] (block (attrs 1 2 identity) (fun _ _ => Q2Qc (1 # 2)))
               [point 1 0 0] identity 0)
  = positions (deform [0]%nat
                 (block (with_envelope (Q2Qc (1 # 2)) (attrs 1 2 identity))
                    (fun _ _ => 1%Qc)) [point 1 0 0] identity 0).
Proof.
  refine (mt_depends_on_product (attrs 1 2 identity) (Q2Qc (1 # 2))
            (fun _ _ => Q2Qc (1 # 2)) (fun _ _ => 1%Qc) [point 1 0 0] identity 0%nat
            [] [0]%nat _ eq_refl eq_refl _).
  - simpl. lia.
  - intros j _. apply Qc_is_canon. by vm_compute.
Defined.
